(** * Logger: interception of console output with file, memory and emit sinks

    Shallow embedding of [src/index.js] (class [Logger]) and the properties
    of its specification.

    Conventions of the embedding.
    - A JavaScript string is a [string]; each character is one code unit in
      the range 0..255.
    - A JavaScript number is a [number]: NaN, the two infinities, or an
      integer-valued double (arithmetic on those is exact).  Symbols and
      BigInts are not part of the value universe.
    - The state of the process is a [World]: the four output functions of
      [console], the [logs] of every Logger instance, the file system, and a
      trace of what left the program.  Code runs in the monad [M] of state
      and exceptions over it.
    - Everything the class obtains from the runtime rather than from this
      repository ([util.inspect], [path.resolve], [Date], the coercions of
      strings and objects to numbers, whether a write or a listener fails)
      is a field of the class [Host].
    - A configuration object is not changed once it has been passed to the
      constructor. *)

From stdpp Require Import base strings pretty gmap list.
From Stdlib Require Import ZArith Lia Ascii.

#[local] Set Warnings "-register-all,-clear-no-such-hyp".
Local Open Scope Z_scope.

(** ** Values *)

Inductive number : Type :=
| NaN
| PosInf
| NegInf
| Int (z : Z).

(** [VFunction f]: a function object, [f] names it for the host.
    [VObject props]: an ordinary object, [props] its own enumerable
    properties in enumeration order, each key once. *)
Inductive value : Type :=
| VUndefined
| VNull
| VBool (b : bool)
| VNumber (n : number)
| VString (s : string)
| VFunction (f : string)
| VArray (elems : list value)
| VObject (props : list (string * value)).

(** [typeof v] *)
Definition typeof (v : value) : string :=
  match v with
  | VUndefined => "undefined"
  | VNull => "object"
  | VBool _ => "boolean"
  | VNumber _ => "number"
  | VString _ => "string"
  | VFunction _ => "function"
  | VArray _ => "object"
  | VObject _ => "object"
  end.

(** ToBoolean: what [if (v)], [!v] and [a && b] test. *)
Definition truthy (v : value) : bool :=
  match v with
  | VUndefined | VNull => false
  | VBool b => b
  | VNumber NaN => false
  | VNumber (Int z) => negb (z =? 0)
  | VNumber _ => true
  | VString s => negb (String.eqb s "")
  | VFunction _ | VArray _ | VObject _ => true
  end.

Fixpoint assoc (key : string) (props : list (string * value)) : value :=
  match props with
  | [] => VUndefined
  | (k, v) :: rest => if String.eqb k key then v else assoc key rest
  end.

(** [v.key] for the property names the class reads ([types], [log], [file],
    [memory], [emit], [dir], [history], [timestamp]): only an ordinary object
    can own one of them. *)
Definition get (v : value) (key : string) : value :=
  match v with
  | VObject props => assoc key props
  | _ => VUndefined
  end.

Definition isArray (v : value) : bool :=
  match v with VArray _ => true | _ => false end.

(** The decimal index keys "0", "1", ... of an array or a string. *)
Definition index_keys (n : nat) : list string :=
  (fun i : nat => pretty i) <$> seq 0 n.

(** [Object.keys(v)], also the keys [for (key in v)] visits. *)
Definition keys (v : value) : list string :=
  match v with
  | VObject props => props.*1
  | VArray elems => index_keys (length elems)
  | VString s => index_keys (String.length s)
  | _ => []
  end.

(** ** Strings: [String.prototype.trim] *)

(** White space and line terminators among the code units 0..255:
    TAB, LF, VT, FF, CR, SP and NBSP. *)
Definition is_white (c : ascii) : bool :=
  match N_of_ascii c with
  | 9 | 10 | 11 | 12 | 13 | 32 | 160 => true
  | _ => false
  end%N.

Fixpoint trimStart (s : string) : string :=
  match s with
  | EmptyString => EmptyString
  | String c s' => if is_white c then trimStart s' else s
  end.

Fixpoint trimEnd (s : string) : string :=
  match s with
  | EmptyString => EmptyString
  | String c s' =>
      match trimEnd s' with
      | EmptyString => if is_white c then EmptyString else String c EmptyString
      | t => String c t
      end
  end.

Definition trim (s : string) : string := trimStart (trimEnd s).

(** ** Numbers *)

(** [a >= b] on numbers: false as soon as one side is NaN. *)
Definition ge (a b : number) : bool :=
  match a, b with
  | NaN, _ | _, NaN => false
  | PosInf, _ => true
  | _, NegInf => true
  | NegInf, _ => false
  | _, PosInf => false
  | Int x, Int y => y <=? x
  end.

(** [a - b] on numbers. *)
Definition sub (a b : number) : number :=
  match a, b with
  | NaN, _ | _, NaN => NaN
  | PosInf, PosInf | NegInf, NegInf => NaN
  | PosInf, _ => PosInf
  | NegInf, _ => NegInf
  | Int _, PosInf => NegInf
  | Int _, NegInf => PosInf
  | Int x, Int y => Int (x - y)
  end.

(** [l.splice(0, deleteCount)], the array that is left: the count goes
    through ToIntegerOrInfinity and is clamped to [0, l.length]. *)
Definition splice0 {A} (l : list A) (deleteCount : number) : list A :=
  match deleteCount with
  | NaN | NegInf => l
  | PosInf => []
  | Int z => drop (Z.to_nat (Z.min (Z.max z 0) (Z.of_nat (length l)))) l
  end.

(** ** Exceptions and results *)

Inductive exn : Type :=
| Error (msg : string)        (** [new Error(msg)], thrown by the class *)
| TypeError (msg : string)    (** thrown by the runtime *)
| SystemError (path : string) (** thrown by [fs] *)
| EmitError (type : string)   (** thrown out of [emit]: by a listener, or for
                                  an [error] event that has no listener *)
| StampError (f : string)     (** thrown out of the configured timestamp
                                  function [f] *).

Inductive result (A : Type) : Type :=
| Ok (a : A)
| Throw (e : exn).
Arguments Ok {A} a.
Arguments Throw {A} e.

#[global] Instance result_ret : MRet result := λ A a, Ok a.
#[global] Instance result_bind : MBind result := λ A B f m,
  match m with
  | Ok a => f a
  | Throw e => Throw e
  end.

(** [if (c) throw e;] *)
Definition throw_if (c : bool) (e : exn) : result unit :=
  if c then Throw e else Ok ().

(** [for (let x of l) body(x)] with a body that only throws or goes on *)
Fixpoint for_each {A} (l : list A) (body : A → result unit) : result unit :=
  match l with
  | [] => Ok ()
  | x :: rest => body x ;; for_each rest body
  end.

(** ** The process state *)

(** A [HistoryEntry]: [{time: new Date(), message: str}] *)
Record entry : Type := Entry { time : Z; message : string }.

(** The code of a function that [console] can hold: the runtime's own output
    function, or the arrow function of line 68 with what it closes over
    ([this], [item], [log] and the captured original [o]). *)
Inductive closure : Type :=
| Native (name : string)
| Wrapper (this : nat) (item : string) (log : value) (o : closure).

(** A function object: its code and its [modified] property. *)
Record funobj : Type := FunObj { code : closure; modified : bool }.

(** The four output functions of the global [console]. *)
Record Console : Type := MkConsole {
  console_log : funobj;
  console_warn : funobj;
  console_error : funobj;
  console_debug : funobj
}.

(** What a call leaves outside the program: the runtime's output function ran
    on [args], or [this.emit(type, payload)] was called. *)
Inductive event : Type :=
| Output (name : string) (args : list value)
| Emit (this : nat) (type : string) (payload : string).

(** [heap] holds the [logs] object of every Logger instance, by the instance's
    address; [ticks] counts the dates made so far; [files] is the file system
    (contents by resolved path); [out] the events so far, oldest first. *)
Record World : Type := MkWorld {
  console : Console;
  heap : list (gmap string (list entry));
  ticks : nat;
  files : gmap string string;
  out : list event
}.

Definition set_console (c : Console) (w : World) : World :=
  MkWorld c (heap w) (ticks w) (files w) (out w).
Definition set_heap (h : list (gmap string (list entry))) (w : World) : World :=
  MkWorld (console w) h (ticks w) (files w) (out w).
Definition set_ticks (n : nat) (w : World) : World :=
  MkWorld (console w) (heap w) n (files w) (out w).
Definition set_files (f : gmap string string) (w : World) : World :=
  MkWorld (console w) (heap w) (ticks w) f (out w).
Definition set_out (o : list event) (w : World) : World :=
  MkWorld (console w) (heap w) (ticks w) (files w) o.

(** ** The host *)

(** What the class takes from the runtime and from the code around it.  The
    listeners of [emit] and the configured timestamp function are code of the
    program that uses the class: the model takes from them whether they throw
    and, for the timestamp function, the text it gives; it takes them not to
    call the console, not to write the log files and not to touch the [logs]
    of an instance. *)
Class Host := {
  (** StringToNumber of ECMA-262 *)
  StringToNumber : string → number;
  (** ToNumber of a function, an array or an object (through ToPrimitive) *)
  ObjectToNumber : value → number;
  (** Number::toString *)
  NumberToString : number → string;
  (** ToString of a function, an array or an object (through ToPrimitive) *)
  ObjectToString : value → string;
  (** [util.inspect], which prints [null] as [null] *)
  inspect : value → string;
  inspect_null : inspect VNull = "null";
  (** the time value of the n-th [new Date()] of the process *)
  clock : nat → Z;
  getUTCFullYear : Z → Z;
  getUTCMonth : Z → Z;
  getUTCDate : Z → Z;
  (** [path.resolve(dir, fn)] for a string [dir] *)
  path_resolve : string → string → string;
  (** [os.EOL] *)
  EOL : string;
  (** the text that the template of line 83 gets from what a configured
      timestamp function [f] returns for a date, when it returns *)
  call_timestamp : string → Z → string;
  (** whether the call of the configured timestamp function [f] on a date
      throws, in the state the process is in *)
  timestamp_fails : World → string → Z → bool;
  (** whether [fs.appendFileSync] fails on this path, in the state the
      process is in *)
  write_fails : World → string → bool;
  (** whether [emit(type, payload)] of the instance at [this] throws, in the
      state the process is in *)
  emit_fails : World → nat → string → string → bool
}.

(** ** Reading and writing the state *)

(** [logger.logs[item]] of the instance at [this]; [None] stands for
    [undefined]. *)
Definition history (w : World) (this : nat) (item : string) : option (list entry) :=
  logs ← heap w !! this; logs !! item.

(** [console[name]]; [None] stands for [undefined]. *)
Definition console_get (c : Console) (name : string) : option funobj :=
  if decide (name = "log") then Some (console_log c)
  else if decide (name = "warn") then Some (console_warn c)
  else if decide (name = "error") then Some (console_error c)
  else if decide (name = "debug") then Some (console_debug c)
  else None.

(** [console[name] = f] *)
Definition console_set (c : Console) (name : string) (f : funobj) : Console :=
  if decide (name = "log")
  then MkConsole f (console_warn c) (console_error c) (console_debug c)
  else if decide (name = "warn")
  then MkConsole (console_log c) f (console_error c) (console_debug c)
  else if decide (name = "error")
  then MkConsole (console_log c) (console_warn c) f (console_debug c)
  else if decide (name = "debug")
  then MkConsole (console_log c) (console_warn c) (console_error c) f
  else c.

(** The number of interceptions stacked in a function. *)
Fixpoint interceptions (f : closure) : nat :=
  match f with
  | Native _ => 0
  | Wrapper _ _ _ o => S (interceptions o)
  end.

(** Every wrapper inside [f] belongs to an instance at an address below [n]. *)
Fixpoint owners_below (n : nat) (f : closure) : Prop :=
  match f with
  | Native _ => True
  | Wrapper this _ _ o => (this < n)%nat ∧ owners_below n o
  end.

(** Some wrapper inside [f] belongs to the instance at [this] and has the
    memory sink switched on. *)
Fixpoint records_for (this : nat) (f : closure) : Prop :=
  match f with
  | Native _ => False
  | Wrapper t _ log o =>
      (t = this ∧ truthy (get log "memory") = true) ∨ records_for this o
  end.

(** The functions of the console refer to Logger instances that exist. *)
Definition wf (w : World) : Prop :=
  ∀ name f, console_get (console w) name = Some f →
    owners_below (length (heap w)) (code f).

(** The state of a process before the class is first used: the console holds
    the runtime's own functions, unmarked, and there is no instance. *)
Definition pristine (w : World) : Prop :=
  heap w = [] ∧
  ∀ name f, console_get (console w) name = Some f →
    code f = Native name ∧ modified f = false.

(** The names [types] may hold. *)
Definition kind_value (item : value) : Prop :=
  ∃ name, item = VString name ∧ name ∈ ["log"; "warn"; "error"; "debug"].

(** Every function of the console carries as many interceptions as its
    marker says: one when marked, none otherwise. *)
Definition intercepted_once (w : World) : Prop :=
  ∀ name f, console_get (console w) name = Some f →
    interceptions (code f) = if modified f then 1%nat else 0%nat.

(** No function of the console records into the instance at [this], which
    exists. *)
Definition silent_for (this : nat) (w : World) : Prop :=
  (this < length (heap w))%nat
  ∧ ∀ name f, console_get (console w) name = Some f →
      ¬ records_for this (code f).


(** The error of line 62 *)
Definition attach_error (name : string) : exn :=
  Error ("Attempted to attach logger to console." +:+ name +:+ " multiple times").

(** ** Computations: a state and exception monad over [World] *)

Definition M (A : Type) : Type := World → result A * World.

#[global] Instance M_ret : MRet M := λ A a w, (Ok a, w).
#[global] Instance M_bind : MBind M := λ A B f m w,
  match m w with
  | (Ok a, w') => f a w'
  | (Throw e, w') => (Throw e, w')
  end.

Definition throw {A} (e : exn) : M A := λ w, (Throw e, w).
Definition lift {A} (r : result A) : M A := λ w, (r, w).
Definition gets {A} (f : World → A) : M A := λ w, (Ok (f w), w).
Definition modify (f : World → World) : M unit := λ w, (Ok (), f w).

(** A computation keeps a relation between the state it starts in and the
    state it leaves, whether it returns or throws. *)
Definition preserves {A} (R : relation World) (m : M A) : Prop :=
  ∀ w, R w (m w).2.

(** The relations the sinks and the constructor are framed by. *)
Definition same_console : relation World := λ w w', console w' = console w.
Definition same_heap : relation World := λ w w', heap w' = heap w.
Definition same_heap_at (j : nat) : relation World :=
  λ w w', heap w' !! j = heap w !! j.
Definition same_heap_length : relation World :=
  λ w w', length (heap w') = length (heap w).
(** What was added to the trace are emissions of [str] as [item] by [this]. *)
Definition emits (this : nat) (item str : string) : relation World :=
  λ w w', ∃ evs, out w' = out w ++ evs ∧ Forall (λ ev, ev = Emit this item str) evs.

Section Embedding.
Context `{Host}.

(** ** Coercions *)

Definition ToNumber (v : value) : number :=
  match v with
  | VUndefined => NaN
  | VNull => Int 0
  | VBool b => Int (if b then 1 else 0)
  | VNumber n => n
  | VString s => StringToNumber s
  | VFunction _ | VArray _ | VObject _ => ObjectToNumber v
  end.

(** The global [isNaN(v)] *)
Definition isNaN (v : value) : bool :=
  match ToNumber v with
  | NaN => true
  | _ => false
  end.

Definition ToString (v : value) : string :=
  match v with
  | VUndefined => "undefined"
  | VNull => "null"
  | VBool b => if b then "true" else "false"
  | VNumber n => NumberToString n
  | VString s => s
  | VFunction _ | VArray _ | VObject _ => ObjectToString v
  end.

(** ** Rendering (lines 71-77) *)

(** [(typeof item == "object" || typeof item == "function"
      ? util.inspect(item) : item)] as the operand of [+ " "] *)
Definition render_arg (item : value) : string :=
  if String.eqb (typeof item) "object" || String.eqb (typeof item) "function"
  then inspect item
  else ToString item.

(** [let str = ""; for (const item of args) str += ... + " "; str = str.trim()] *)
Definition render (args : list value) : string :=
  trim (fold_left (λ str item, str +:+ (render_arg item +:+ " ")) args "").

(** ** Validation (lines 37-58) *)

Definition includes (l : list string) (v : value) : bool :=
  match v with
  | VString s => bool_decide (s ∈ l)
  | _ => false
  end.

(** [types.length] and the elements [for (let item of types)] visits, for an
    array *)
Definition elements (v : value) : list value :=
  match v with
  | VArray elems => elems
  | _ => []
  end.

Definition validate (types log : value) : result unit :=
  throw_if (negb (truthy types)) (Error "Missing types") ;;
  throw_if (negb (truthy log)) (Error "Missing log") ;;
  throw_if (negb (isArray types)) (Error "types needs to be an array") ;;
  throw_if (length (elements types) =? 0)%nat (Error "types are empty") ;;
  throw_if (length (keys log) =? 0)%nat (Error "log is empty") ;;
  let file := get log "file" in
  let memory := get log "memory" in
  throw_if (truthy file && negb (truthy (get file "dir"))
            && negb (String.eqb (typeof (get file "dir")) "string"))
    (Error "Invalid dir") ;;
  throw_if (truthy memory && isNaN (get memory "history"))
    (Error "Invalid memory history size") ;;
  throw_if (truthy file && truthy (get file "timestamp")
            && negb (String.eqb (typeof (get file "timestamp")) "function"))
    (Error "Invalid file timestamp") ;;
  for_each (elements types) (λ item,
    throw_if (negb (includes ["log"; "warn"; "error"; "debug"] item))
      (Error ("Invalid type " +:+ ToString item
              +:+ ", must be one of log, warn, error, debug"))) ;;
  for_each (keys log) (λ key,
    throw_if (negb (includes ["file"; "memory"; "emit"] (VString key)))
      (Error ("Invalid log " +:+ key
              +:+ ", must be one of file, memory, emit"))).

(** The configurations that lines 37-58 let through, check by check. *)
Definition accepted (types log : value) : Prop :=
  truthy types = true ∧ truthy log = true ∧ isArray types = true
  ∧ elements types ≠ [] ∧ keys log ≠ []
  ∧ (truthy (get log "file") && negb (truthy (get (get log "file") "dir"))
     && negb (String.eqb (typeof (get (get log "file") "dir")) "string")) = false
  ∧ (truthy (get log "memory") && isNaN (get (get log "memory") "history")) = false
  ∧ (truthy (get log "file") && truthy (get (get log "file") "timestamp")
     && negb (String.eqb (typeof (get (get log "file") "timestamp")) "function"))
    = false
  ∧ Forall kind_value (elements types)
  ∧ Forall (λ key, key ∈ ["file"; "memory"; "emit"]) (keys log).

(** ** The wrapper (lines 68-95) *)

(** [new Date()]: its time value *)
Definition new_Date : M Z :=
  λ w, (Ok (clock (ticks w)), set_ticks (S (ticks w)) w).

(** [path.resolve(dir, fn)]: the runtime refuses a [dir] that is no string. *)
Definition resolve (dir : value) (fn : string) : M string :=
  match dir with
  | VString d => mret (path_resolve d fn)
  | _ => throw (TypeError "The paths[0] argument must be of type string")
  end.

(** [fs.appendFileSync(path, data)]: the file is created when missing. *)
Definition appendFileSync (path data : string) : M unit :=
  w ← gets id;
  if write_fails w path then throw (SystemError path)
  else modify (set_files
                 (<[path := default "" (files w !! path) +:+ data]> (files w))).

(** [(log.file.timestamp ? log.file.timestamp(new Date()) : "")]: the
    argument is evaluated before the call; the call is refused for what is
    not a function, and what the function throws is not caught. *)
Definition timestamp_prefix (timestamp : value) : M string :=
  if truthy timestamp then
    d ← new_Date;
    match timestamp with
    | VFunction f =>
        w ← gets id;
        if timestamp_fails w f d then throw (StampError f)
        else mret (call_timestamp f d)
    | _ => throw (TypeError "log.file.timestamp is not a function")
    end
  else mret "".

(** Lines 80-83 *)
Definition file_sink (item : string) (log : value) (str : string) : M unit :=
  d ← new_Date;
  let fn := item +:+ "_" +:+ NumberToString (Int (getUTCFullYear d))
            +:+ "_" +:+ NumberToString (Int (getUTCMonth d + 1))
            +:+ "_" +:+ NumberToString (Int (getUTCDate d)) +:+ ".log" in
  res ← resolve (get (get log "file") "dir") fn;
  prefix ← timestamp_prefix (get (get log "file") "timestamp");
  appendFileSync res (prefix +:+ str +:+ EOL).

(** [this.logs[item]] of the instance at [this]; a missing array throws on
    the member access that follows. *)
Definition this_logs (this : nat) (item : string) : M (list entry) :=
  h ← gets (λ w, history w this item);
  match h with
  | Some l => mret l
  | None => throw (TypeError "Cannot read properties of undefined")
  end.

(** The array [this.logs[item]] is updated in place. *)
Definition set_this_logs (this : nat) (item : string) (l : list entry) : M unit :=
  modify (λ w, set_heap (alter (<[item := l]>) this (heap w)) w).

(** Lines 89-91 on the array [l] that [push] left, [bound] being
    [log.memory.history]: [splice] from the front when the length has reached
    the bound. *)
Definition retain (bound : value) (l : list entry) : list entry :=
  let len := Int (Z.of_nat (length l)) in
  if ge len (ToNumber bound) then splice0 l (sub len (ToNumber bound)) else l.

(** Lines 87-91 *)
Definition memory_sink (this : nat) (item : string) (log : value) (str : string)
  : M unit :=
  l ← this_logs this item;
  now ← new_Date;
  set_this_logs this item
    (retain (get (get log "memory") "history") (l ++ [Entry now str])).

(** [this.emit(item, str)]: the listeners are code outside the class; what
    they do shows here as the event, and as the exception when one throws. *)
Definition emit (this : nat) (item str : string) : M unit :=
  w ← gets id;
  modify (set_out (out w ++ [Emit this item str])) ;;
  if emit_fails w this item str then throw (EmitError item) else mret ().

(** The sinks, lines 79-94. *)
Definition sinks (this : nat) (item : string) (log : value) (str : string)
  : M unit :=
  (if truthy (get log "file") then file_sink item log str else mret ()) ;;
  (if truthy (get log "memory") then memory_sink this item log str else mret ()) ;;
  (if truthy (get log "emit") then emit this item str else mret ()).

(** Calling a function that [console] holds with [args]. *)
Fixpoint call (f : closure) (args : list value) : M unit :=
  match f with
  | Native name => modify (λ w, set_out (out w ++ [Output name args]) w)
  | Wrapper this item log o =>
      call o args ;;
      let str := render args in
      sinks this item log str
  end.

(** [console[name](...args)] as the program's caller writes it *)
Definition console_call (name : string) (args : list value) : M unit :=
  c ← gets console;
  match console_get c name with
  | Some f => call (code f) args
  | None => throw (TypeError ("console." +:+ name +:+ " is not a function"))
  end.

(** ** The constructor (lines 32-99) *)

(** [console[item]] for an element of [types] *)
Definition console_item (c : Console) (item : value) : option (string * funobj) :=
  match item with
  | VString name => (λ f, (name, f)) <$> console_get c name
  | _ => None
  end.

(** [console[name].modified = true] *)
Definition set_modified (name : string) : M unit :=
  modify (λ w,
    match console_get (console w) name with
    | Some f => set_console (console_set (console w) name (FunObj (code f) true)) w
    | None => w
    end).

(** Lines 60-98, the loop that installs the wrappers. *)
Fixpoint install (this : nat) (log : value) (types : list value) : M unit :=
  match types with
  | [] => mret ()
  | item :: rest =>
      c ← gets console;
      match console_item c item with
      | None => throw (TypeError "Cannot read properties of undefined")
      | Some (name, f) =>
          (if modified f
           then throw (attach_error name)
           else mret ()) ;;
          let o := code f in
          modify (λ w, set_heap (alter (<[name := []]>) this (heap w)) w) ;;
          modify (λ w, set_console
                    (console_set (console w) name
                       (FunObj (Wrapper this name log o) false)) w) ;;
          set_modified name ;;
          install this log rest
      end
  end.

(** [super(); this.logs = {}]: the new instance, at a fresh address *)
Definition alloc : M nat :=
  λ w, (Ok (length (heap w)), set_heap (heap w ++ [∅]) w).

(** The parameter pattern [{types, log} = {}]: the default stands in for a
    missing argument, and [null] has no properties to read. *)
Definition destructure (arg : value) : result (value * value) :=
  match arg with
  | VNull => Throw (TypeError "Cannot destructure null")
  | VUndefined => Ok (get (VObject []) "types", get (VObject []) "log")
  | _ => Ok (get arg "types", get arg "log")
  end.

(** [new Logger(arg)]; the result is the address of the instance. *)
Definition Logger_new (arg : value) : M nat :=
  '(types, log) ← lift (destructure arg);
  this ← alloc;
  lift (validate types log) ;;
  install this log (elements types) ;;
  mret this.

(** One pass through the loop of lines 60-98 for an unmarked [console[name]],
    which is [f]: the state it leaves. *)
Definition attached (this : nat) (log : value) (name : string) (f : funobj)
  (w : World) : World :=
  set_console
    (console_set (console w) name (FunObj (Wrapper this name log (code f)) true))
    (set_heap (alter (<[name := []]>) this (heap w)) w).

(** ** Runs of the program around the class *)

(** [console[name](...args)] once per element of [argss], in order, each call
    returning before the next is made. *)
Fixpoint console_calls (name : string) (argss : list (list value)) : M unit :=
  match argss with
  | [] => mret ()
  | args :: rest => console_call name args ;; console_calls name rest
  end.

(** What the rest of the program does with the class and the console: it
    calls an output function (and goes on whether the call returns or
    throws), or constructs a Logger (likewise). *)
Inductive action : Type :=
| Call (name : string) (args : list value)
| New (arg : value).

Definition step (w : World) (a : action) : World :=
  match a with
  | Call name args => (console_call name args w).2
  | New arg => (Logger_new arg w).2
  end.

Definition run (acts : list action) (w : World) : World :=
  fold_left step acts w.

End Embedding.

(** ** A process to run examples in *)

(** [{types: types, log: log}] *)
Definition config (types : list string) (log : list (string * value)) : value :=
  VObject [("types", VArray (VString <$> types)); ("log", VObject log)].

(** [{memory: {history: h}}], [{file: {dir: dir}}] and [{emit: true}] *)
Definition memory_sink_of (h : value) : list (string * value) :=
  [("memory", VObject [("history", h)])].
Definition file_sink_of (dir : value) : list (string * value) :=
  [("file", VObject [("dir", dir)])].
Definition emit_sink : list (string * value) := [("emit", VBool true)].

(** The console of a fresh process. *)
Definition fresh_console : Console :=
  MkConsole (FunObj (Native "log") false) (FunObj (Native "warn") false)
            (FunObj (Native "error") false) (FunObj (Native "debug") false).

Definition fresh : World := MkWorld fresh_console [] 0 ∅ [].

(** A small host: it prints integers in decimal, inspects every object as
    [<object>], coerces no string or object to a number, has a clock that
    advances by one millisecond per date, a file system that never fails,
    and listeners and timestamp functions that never throw, the latter
    giving the empty text. *)
Definition small_host : Host := {|
  StringToNumber := λ _, NaN;
  ObjectToNumber := λ _, NaN;
  NumberToString := λ n,
    match n with
    | NaN => "NaN"
    | PosInf => "Infinity"
    | NegInf => "-Infinity"
    | Int z => pretty z
    end;
  ObjectToString := λ _, "<object>";
  inspect := λ v, match v with VNull => "null" | _ => "<object>" end;
  inspect_null := eq_refl;
  clock := λ n, Z.of_nat n;
  getUTCFullYear := λ _, 1970;
  getUTCMonth := λ _, 0;
  getUTCDate := λ _, 1;
  path_resolve := λ d fn, d +:+ "/" +:+ fn;
  EOL := String (ascii_of_nat 10) "";
  call_timestamp := λ _ _, "";
  timestamp_fails := λ _ _ _, false;
  write_fails := λ _ _, false;
  emit_fails := λ _ _ _ _, false
|}.

(** The small host with listeners that throw at every emission. *)
Definition throwing_host : Host := {|
  StringToNumber := @StringToNumber small_host;
  ObjectToNumber := @ObjectToNumber small_host;
  NumberToString := @NumberToString small_host;
  ObjectToString := @ObjectToString small_host;
  inspect := @inspect small_host;
  inspect_null := eq_refl;
  clock := @clock small_host;
  getUTCFullYear := @getUTCFullYear small_host;
  getUTCMonth := @getUTCMonth small_host;
  getUTCDate := @getUTCDate small_host;
  path_resolve := @path_resolve small_host;
  EOL := @EOL small_host;
  call_timestamp := @call_timestamp small_host;
  timestamp_fails := λ _ _ _, false;
  write_fails := λ _ _, false;
  emit_fails := λ _ _ _ _, true
|}.

(** The small host with other program code around the class: timestamp
    functions that give [stamp] and throw when [stamp_throws], and a file
    system that refuses every write when [disk_full]. *)
Definition host_with (stamp : string → Z → string) (stamp_throws disk_full : bool)
  : Host := {|
  StringToNumber := @StringToNumber small_host;
  ObjectToNumber := @ObjectToNumber small_host;
  NumberToString := @NumberToString small_host;
  ObjectToString := @ObjectToString small_host;
  inspect := @inspect small_host;
  inspect_null := eq_refl;
  clock := @clock small_host;
  getUTCFullYear := @getUTCFullYear small_host;
  getUTCMonth := @getUTCMonth small_host;
  getUTCDate := @getUTCDate small_host;
  path_resolve := @path_resolve small_host;
  EOL := @EOL small_host;
  call_timestamp := stamp;
  timestamp_fails := λ _ _ _, stamp_throws;
  write_fails := λ _ _, disk_full;
  emit_fails := λ _ _ _ _, false
|}.

(** Timestamp functions that give the time value of the date in brackets. *)
Definition stamping_host : Host :=
  host_with (λ _ d, "[" +:+ pretty d +:+ "] ") false false.



(** ** Notions for the further properties *)

(** The text of a file; a file that is not there has none. *)
Definition content (fs : gmap string string) (path : string) : string :=
  default "" (fs !! path).

(** Every file that was there is still there, with what it held at the
    start of its text. *)
Definition files_grow : relation World :=
  λ w w', ∀ path,
    (is_Some (files w !! path) → is_Some (files w' !! path))
    ∧ ∃ more, content (files w') path = content (files w) path +:+ more.

Definition same_files : relation World := λ w w', files w' = files w.
Definition same_out : relation World := λ w w', out w' = out w.

(** The first and the last code unit of a string. *)
Definition first_unit (s : string) : option ascii :=
  match s with
  | EmptyString => None
  | String c _ => Some c
  end.

Fixpoint last_unit (s : string) : option ascii :=
  match s with
  | EmptyString => None
  | String c s' =>
      match last_unit s' with
      | None => Some c
      | Some d => Some d
      end
  end.




Section FileSink.
Context `{Host}.

(** The file name of line 81 for a date with time value [d]. *)
Definition file_name (item : string) (d : Z) : string :=
  item +:+ "_" +:+ NumberToString (Int (getUTCFullYear d))
  +:+ "_" +:+ NumberToString (Int (getUTCMonth d + 1))
  +:+ "_" +:+ NumberToString (Int (getUTCDate d)) +:+ ".log".

(** The prefix of line 83 for a date with time value [d], for a
    [timestamp] that is nothing or a function. *)
Definition stamp (log : value) (d : Z) : string :=
  match get (get log "file") "timestamp" with
  | VFunction f => call_timestamp f d
  | _ => ""
  end.

(** What the program's caller sees of one call [console[name](...args)]
    over the runtime's function [n0]: its output and, with the emit sink,
    the emission of the message. *)
Definition call_events (this : nat) (name n0 : string) (log : value)
  (args : list value) : list event :=
  Output n0 args
  :: (if truthy (get log "emit") then [Emit this name (render args)] else []).

End FileSink.

Section Checks.
Context `{Host}.

(** The checks of lines 38 to 46 on the sinks pass. *)
Definition sinks_checked (log : value) : Prop :=
  truthy log = true ∧ keys log ≠ []
  ∧ (truthy (get log "file") && negb (truthy (get (get log "file") "dir"))
     && negb (String.eqb (typeof (get (get log "file") "dir")) "string")) = false
  ∧ (truthy (get log "memory") && isNaN (get (get log "memory") "history")) = false
  ∧ (truthy (get log "file") && truthy (get (get log "file") "timestamp")
     && negb (String.eqb (typeof (get (get log "file") "timestamp")) "function"))
    = false.

End Checks.

(** The array of [item] of the instance at [this] is the same in both
    states. *)
Definition same_history_at (this : nat) (item : string) : relation World :=
  λ w w', history w' this item = history w this item.

Section Lines.
Context `{Host}.

(** The dates that one call of the wrapper makes when it returns: one for
    the file name, one for the timestamp function, one for the entry. *)
Definition call_dates (log : value) : nat :=
  ((if truthy (get log "file")
    then 1 + (if truthy (get (get log "file") "timestamp") then 1 else 0)
    else 0)
   + (if truthy (get log "memory") then 1 else 0))%nat.

(** The lines that calls with the argument lists [argss] add to the file of
    the day when they all return, [t] dates having been made before the
    first call: each line has the prefix for the second date of its call. *)
Fixpoint lines (log : value) (t : nat) (argss : list (list value)) : string :=
  match argss with
  | [] => ""
  | args :: rest =>
      (stamp log (clock (S t)) +:+ render args +:+ EOL)
      +:+ lines log (t + call_dates log) rest
  end.



End Lines.

(** * Properties *)

(** ** Strings *)

Lemma append_cons (c : ascii) (s1 s2 : string) :
  String c s1 +:+ s2 = String c (s1 +:+ s2).
Proof. reflexivity. Qed.

Lemma append_assoc (s1 s2 s3 : string) : (s1 +:+ s2) +:+ s3 = s1 +:+ (s2 +:+ s3).
Proof.
  induction s1 as [|c s1 IH]; [done|].
  rewrite !append_cons. by f_equal.
Qed.

Lemma append_empty_r (s : string) : s +:+ "" = s.
Proof.
  induction s as [|c s IH]; [done|].
  rewrite append_cons. by f_equal.
Qed.

(** A trailing space does not survive [trimEnd]. *)
Lemma trimEnd_space (s : string) : trimEnd (s +:+ " ") = trimEnd s.
Proof.
  induction s as [|c s IH]; [done|].
  rewrite append_cons. cbn [trimEnd]. by rewrite IH.
Qed.

Lemma trim_space (s : string) : trim (s +:+ " ") = trim s.
Proof. unfold trim. by rewrite trimEnd_space. Qed.

Section Rendering.
Context `{Host}.





End Rendering.

(** ** Results *)

Lemma throw_if_Ok (c : bool) (e : exn) : throw_if c e = Ok () ↔ c = false.
Proof. destruct c; simpl; split; congruence. Qed.

Lemma result_bind_Ok (m k : result unit) :
  (m ;; k) = Ok () ↔ m = Ok () ∧ k = Ok ().
Proof.
  destruct m as [[]|e]; simpl; [naive_solver|].
  split; [discriminate | intros [? _]; discriminate].
Qed.

(** A chain of checks throws an [Error] as soon as each check can throw
    nothing else. *)
Lemma result_bind_Error (m k : result unit) :
  (m = Ok () ∨ ∃ msg, m = Throw (Error msg)) →
  (k = Ok () ∨ ∃ msg, k = Throw (Error msg)) →
  (m ;; k) = Ok () ∨ ∃ msg, (m ;; k) = Throw (Error msg).
Proof. intros [->|[msg ->]] Hk; simpl; eauto. Qed.

Lemma throw_if_Error (c : bool) (msg : string) :
  throw_if c (Error msg) = Ok () ∨ ∃ msg', throw_if c (Error msg) = Throw (Error msg').
Proof. destruct c; simpl; eauto. Qed.

Lemma for_each_Ok {A} (p : A → bool) (e : A → exn) (l : list A) :
  for_each l (λ x, throw_if (negb (p x)) (e x)) = Ok ()
  ↔ Forall (λ x, p x = true) l.
Proof.
  induction l as [|x l IH]; simpl; [by split|].
  rewrite Forall_cons, <- IH. destruct (p x); simpl; [naive_solver|].
  split; [discriminate | intros [? _]; discriminate].
Qed.

Lemma for_each_Error {A} (p : A → bool) (msg : A → string) (l : list A) :
  for_each l (λ x, throw_if (negb (p x)) (Error (msg x))) = Ok ()
  ∨ ∃ m, for_each l (λ x, throw_if (negb (p x)) (Error (msg x))) = Throw (Error m).
Proof.
  induction l as [|x l IH]; simpl; [by left|].
  destruct (p x); simpl; eauto.
Qed.

Section Validation.
Context `{Host}.

Lemma includes_kind (item : value) :
  includes ["log"; "warn"; "error"; "debug"] item = true ↔ kind_value item.
Proof.
  unfold kind_value. destruct item; simpl; try by (split; [|intros (?&?&?)]).
  rewrite bool_decide_eq_true. naive_solver.
Qed.

(** What a configuration that passes lines 37-58 looks like. *)
Lemma validate_Ok (types log : value) :
  validate types log = Ok () ↔ accepted types log.
Proof.
  unfold accepted.
  unfold validate. cbv zeta.
  rewrite !result_bind_Ok, !throw_if_Ok, !for_each_Ok, !negb_false_iff.
  rewrite !Nat.eqb_neq, !length_zero_iff_nil.
  rewrite (Forall_iff _ _ kind_value) by (intros; apply includes_kind).
  rewrite (Forall_iff _ _ (λ key, key ∈ ["file"; "memory"; "emit"]))
    by (intros; simpl; apply bool_decide_eq_true).
  naive_solver.
Qed.

(** The checks look at which values [types] holds, not at how often or in
    which order it holds them. *)
Lemma validate_elements (items items' : list value) (log : value) :
  (∀ y, y ∈ items ↔ y ∈ items') →
  validate (VArray items) log = Ok () ↔ validate (VArray items') log = Ok ().
Proof.
  intros Hsame.
  assert (∀ l l' : list value, (∀ y, y ∈ l ↔ y ∈ l') →
            accepted (VArray l) log → accepted (VArray l') log) as Hone.
  { intros l l' Hll' (?&?&?&Hne&?&?&?&?&Hkinds&?). repeat split; try done.
    - simpl in *. intros ->. apply Hne, elem_of_nil_inv. intros y Hy.
      apply Hll' in Hy. by apply elem_of_nil in Hy.
    - simpl in *. rewrite Forall_forall in *. intros y Hy.
      by apply Hkinds, Hll'. }
  rewrite !validate_Ok. split; apply Hone; [done|]. intros y. by rewrite Hsame.
Qed.

(** Whatever lines 37-58 throw is an [Error] with a message. *)
Lemma validate_Error (types log : value) :
  validate types log = Ok () ∨ ∃ msg, validate types log = Throw (Error msg).
Proof.
  unfold validate. cbv zeta.
  repeat (apply result_bind_Error; [apply throw_if_Error|]).
  apply result_bind_Error; apply for_each_Error.
Qed.

End Validation.

(** ** Framing *)

Section Preserves.
Context (R : relation World) `{!PreOrder R}.

Lemma preserves_ret {A} (a : A) : preserves R (mret a).
Proof. intros w. simpl. reflexivity. Qed.

Lemma preserves_throw {A} (e : exn) : preserves R (throw (A:=A) e).
Proof. intros w. simpl. reflexivity. Qed.

Lemma preserves_lift {A} (r : result A) : preserves R (lift r).
Proof. intros w. simpl. reflexivity. Qed.

Lemma preserves_gets {A} (f : World → A) : preserves R (gets f).
Proof. intros w. simpl. reflexivity. Qed.

Lemma preserves_modify (f : World → World) :
  (∀ w, R w (f w)) → preserves R (modify f).
Proof. intros Hf w. apply Hf. Qed.

Lemma preserves_bind {A B} (m : M A) (f : A → M B) :
  preserves R m → (∀ a, preserves R (f a)) → preserves R (m ≫= f).
Proof.
  intros Hm Hf w. unfold mbind, M_bind.
  specialize (Hm w). destruct (m w) as [[a|e] w1]; simpl in *; [|done].
  etrans; [done | apply Hf].
Qed.

End Preserves.

#[local] Instance same_console_po : PreOrder same_console.
Proof. split; unfold same_console; [done | intros ???; congruence]. Qed.
#[local] Instance same_heap_po : PreOrder same_heap.
Proof. split; unfold same_heap; [done | intros ???; congruence]. Qed.
#[local] Instance same_heap_at_po j : PreOrder (same_heap_at j).
Proof. split; unfold same_heap_at; [done | intros ???; congruence]. Qed.
#[local] Instance same_heap_length_po : PreOrder same_heap_length.
Proof. split; unfold same_heap_length; [done | intros ???; congruence]. Qed.
(** Walks through a computation built from the monad's operations, leaving
    the steps that change the state. *)
Ltac frame :=
  repeat lazymatch goal with
    | |- preserves ?R (mret _) => apply (preserves_ret R)
    | |- preserves ?R (throw _) => apply (preserves_throw R)
    | |- preserves ?R (lift _) => apply (preserves_lift R)
    | |- preserves ?R (gets _) => apply (preserves_gets R)
    | |- preserves ?R (modify _) => apply (preserves_modify R); intros ?
    | |- preserves ?R (_ ≫= _) => apply (preserves_bind R); [|intros ?]
    | |- preserves _ (match ?x with _ => _ end) => destruct x
    end.

Section Frames.
Context `{Host}.

Lemma new_Date_preserves (R : relation World) `{!PreOrder R} :
  (∀ w n, R w (set_ticks n w)) → preserves R new_Date.
Proof. intros HR w. apply HR. Qed.

Lemma file_sink_preserves (R : relation World) `{!PreOrder R} item log str :
  (∀ w n, R w (set_ticks n w)) → (∀ w fs, R w (set_files fs w)) →
  preserves R (file_sink item log str).
Proof.
  intros Ht Hf. unfold file_sink, resolve, timestamp_prefix, appendFileSync.
  frame; try (by apply new_Date_preserves); apply Hf.
Qed.

Lemma emit_preserves (R : relation World) `{!PreOrder R} this item str :
  (∀ w o, R w (set_out o w)) → preserves R (emit this item str).
Proof. intros Ho. unfold emit. frame. apply Ho. Qed.

Lemma memory_sink_preserves (R : relation World) `{!PreOrder R} this item log str :
  (∀ w n, R w (set_ticks n w)) →
  (∀ w l, R w (set_heap (alter (<[item := l]>) this (heap w)) w)) →
  preserves R (memory_sink this item log str).
Proof.
  intros Ht Hh. unfold memory_sink, this_logs, set_this_logs.
  frame; try (by apply new_Date_preserves); apply Hh.
Qed.

Lemma sinks_preserves (R : relation World) `{!PreOrder R} this item log str :
  (∀ w n, R w (set_ticks n w)) → (∀ w fs, R w (set_files fs w)) →
  (∀ w o, R w (set_out o w)) →
  (truthy (get log "memory") = true →
   ∀ w l, R w (set_heap (alter (<[item := l]>) this (heap w)) w)) →
  preserves R (sinks this item log str).
Proof.
  intros Ht Hf Ho Hh. unfold sinks.
  apply (preserves_bind R); [|intros _; apply (preserves_bind R); [|intros _]].
  - destruct (truthy (get log "file"));
      [by apply file_sink_preserves | apply (preserves_ret R)].
  - destruct (truthy (get log "memory")) eqn:Hm;
      [apply memory_sink_preserves; auto | apply (preserves_ret R)].
  - destruct (truthy (get log "emit"));
      [by apply emit_preserves | apply (preserves_ret R)].
Qed.

(** A call changes the [logs] of those instances only whose wrappers, with
    the memory sink on, are inside the function called. *)
Lemma call_preserves (R : relation World) `{!PreOrder R} f args :
  (∀ w n, R w (set_ticks n w)) → (∀ w fs, R w (set_files fs w)) →
  (∀ w o, R w (set_out o w)) →
  (∀ this item l, records_for this f →
   ∀ w, R w (set_heap (alter (<[item := l]>) this (heap w)) w)) →
  preserves R (call f args).
Proof.
  intros Ht Hf Ho. induction f as [name|this item log o IH]; intros Hh; simpl.
  - apply (preserves_modify R). intros w. apply Ho.
  - apply (preserves_bind R); [|intros _].
    + apply IH. intros this' item' l Hrec. apply Hh. simpl. by right.
    + apply sinks_preserves; try done.
      intros Hm w l. apply Hh. simpl. by left.
Qed.

Lemma call_console f args w : console (call f args w).2 = console w.
Proof. by apply (call_preserves same_console). Qed.

Lemma call_heap_length f args w :
  length (heap (call f args w).2) = length (heap w).
Proof.
  apply (call_preserves same_heap_length); try done.
  intros this item l _ w'. unfold same_heap_length. simpl. apply length_alter.
Qed.

Lemma call_heap_at j f args w :
  ¬ records_for j f → heap (call f args w).2 !! j = heap w !! j.
Proof.
  intros Hj. apply (call_preserves (same_heap_at j)); try done.
  intros this item l Hrec w'. unfold same_heap_at. simpl.
  apply list_lookup_alter_ne. by intros ->.
Qed.

End Frames.

(** ** The console *)

Lemma console_get_Some c name f :
  console_get c name = Some f → name ∈ ["log"; "warn"; "error"; "debug"].
Proof.
  unfold console_get. repeat case_decide; subst; try discriminate;
    intros _; set_solver.
Qed.

Lemma console_get_kind c name :
  name ∈ ["log"; "warn"; "error"; "debug"] → is_Some (console_get c name).
Proof.
  intros Hin. unfold console_get.
  repeat case_decide; eauto. set_solver.
Qed.

Lemma console_get_set_eq c name f g :
  console_get c name = Some g → console_get (console_set c name f) name = Some f.
Proof.
  unfold console_get, console_set.
  repeat case_decide; subst; simpl; try done.
Qed.

Lemma console_get_set_ne c name name' f :
  name ≠ name' →
  console_get (console_set c name f) name' = console_get c name'.
Proof.
  intros Hne. unfold console_get, console_set.
  repeat case_decide; subst; simpl; try done.
Qed.

Lemma console_set_set c name f g :
  console_set (console_set c name f) name g = console_set c name g.
Proof. unfold console_set. repeat case_decide; subst; simpl; done. Qed.

Lemma console_item_Some c item name f :
  console_item c item = Some (name, f) ↔
    item = VString name ∧ console_get c name = Some f.
Proof.
  unfold console_item. destruct item; simpl; try by (split; [|intros [? _]]).
  destruct (console_get c s) eqn:Hs; simpl; naive_solver.
Qed.

Lemma console_item_kind c item :
  kind_value item → ∃ name f, console_item c item = Some (name, f).
Proof.
  intros (name & -> & Hin).
  destruct (console_get_kind c name Hin) as [f Hf].
  exists name, f. by apply console_item_Some.
Qed.

(** ** The loop that installs the wrappers *)

Section Install.
Context `{Host}.

Lemma install_cons this log item rest w :
  install this log (item :: rest) w =
    match console_item (console w) item with
    | None => (Throw (TypeError "Cannot read properties of undefined"), w)
    | Some (name, f) =>
        if modified f then (Throw (attach_error name), w)
        else install this log rest (attached this log name f w)
    end.
Proof.
  cbn [install]. unfold mbind, M_bind, gets, modify, throw, mret, M_ret.
  destruct (console_item (console w) item) as [[name f]|] eqn:Hitem; [|done].
  apply console_item_Some in Hitem as [-> Hf].
  destruct (modified f); [done|]. cbn.
  unfold set_modified, modify. cbn.
  rewrite (console_get_set_eq _ _ _ f Hf). cbn.
  f_equal. unfold attached, set_console, set_heap. simpl. f_equal.
  apply console_set_set.
Qed.

(** A property of the state that every pass through the loop keeps holds
    when the loop is left, by the end of [types] or by a throw. *)
Lemma install_invariant (P : World → Prop) this log items w :
  (∀ w name f, P w → console_get (console w) name = Some f →
               modified f = false → P (attached this log name f w)) →
  P w → P (install this log items w).2.
Proof.
  intros Hstep. revert w. induction items as [|item rest IH]; intros w Hw; [done|].
  rewrite install_cons.
  destruct (console_item (console w) item) as [[name f]|] eqn:Hitem; [|done].
  apply console_item_Some in Hitem as [-> Hf].
  destruct (modified f) eqn:Hm; [done|]. apply IH. by apply Hstep.
Qed.

Lemma history_attached_eq this log name f w :
  (this < length (heap w))%nat →
  history (attached this log name f w) this name = Some [].
Proof.
  intros Hlt. unfold history, attached. simpl.
  rewrite list_lookup_alter_eq.
  destruct (lookup_lt_is_Some_2 _ _ Hlt) as [logs ->]. simpl.
  apply lookup_insert_eq.
Qed.

Lemma history_attached_ne this log name f w j item :
  (j, item) ≠ (this, name) →
  history (attached this log name f w) j item = history w j item.
Proof.
  intros Hne. unfold history, attached. simpl.
  destruct (decide (j = this)) as [->|Hj].
  - rewrite list_lookup_alter_eq. destruct (heap w !! this) as [logs|]; simpl; [|done].
    apply lookup_insert_ne. congruence.
  - by rewrite list_lookup_alter_ne.
Qed.

(** The loop throws the error of line 62 when it meets a name whose function
    is marked, and it meets one at the latest at [name]. *)
Lemma install_marked this log items w name f :
  Forall kind_value items → VString name ∈ items →
  console_get (console w) name = Some f → modified f = true →
  ∃ name' w', install this log items w = (Throw (attach_error name'), w').
Proof.
  intros Hkinds. revert w.
  induction Hkinds as [|item rest Hitem _ IH]; intros w Hin Hf Hm.
  { by apply elem_of_nil in Hin. }
  rewrite install_cons.
  destruct (console_item_kind (console w) item Hitem) as (n & g & Hg).
  rewrite Hg. apply console_item_Some in Hg as [-> Hg].
  destruct (modified g) eqn:Hmg; [by eauto|].
  assert (n ≠ name) as Hne by (intros ->; congruence).
  apply IH.
  - apply elem_of_cons in Hin as [[=]|Hin]; [congruence | done].
  - unfold attached. simpl. by rewrite console_get_set_ne.
  - done.
Qed.

(** The loop throws the error of line 62 when a value stands twice in
    [types]. *)
Lemma install_duplicate this log items w i j x :
  Forall kind_value items → (i < j)%nat →
  items !! i = Some x → items !! j = Some x →
  ∃ name' w', install this log items w = (Throw (attach_error name'), w').
Proof.
  intros Hkinds. revert w i j.
  induction Hkinds as [|item rest Hitem Hrest IH]; intros w i j Hij Hi Hj.
  { done. }
  rewrite install_cons.
  destruct (console_item_kind (console w) item Hitem) as (n & g & Hg).
  rewrite Hg. apply console_item_Some in Hg as [-> Hg].
  destruct (modified g) eqn:Hmg; [by eauto|].
  destruct j as [|j]; [lia|]. simpl in Hj.
  destruct i as [|i]; simpl in Hi.
  - injection Hi as <-.
    eapply (install_marked _ _ _ _ n); [done | | |].
    + by eapply list_elem_of_lookup_2.
    + unfold attached. simpl. by eapply console_get_set_eq.
    + done.
  - eapply (IH _ i j); [lia | done | done].
Qed.

(** What the loop has done when it is left by the end of [types]. *)
Lemma install_Ok this log items w w' :
  (this < length (heap w))%nat →
  install this log items w = (Ok (), w') →
  (∀ name, VString name ∈ items →
     ∃ f, console_get (console w) name = Some f ∧ modified f = false
          ∧ console_get (console w') name
            = Some (FunObj (Wrapper this name log (code f)) true)
          ∧ history w' this name = Some [])
  ∧ (∀ name, VString name ∉ items →
       console_get (console w') name = console_get (console w) name
       ∧ history w' this name = history w this name).
Proof.
  revert w. induction items as [|item rest IH]; intros w Hlt Hrun.
  { injection Hrun as <-. split; [|done]. intros name Hin. by apply elem_of_nil in Hin. }
  rewrite install_cons in Hrun.
  destruct (console_item (console w) item) as [[n g]|] eqn:Hg; [|done].
  apply console_item_Some in Hg as [-> Hg].
  destruct (modified g) eqn:Hmg; [done|].
  apply IH in Hrun as [IH1 IH2];
    [|by unfold attached; simpl; rewrite length_alter].
  assert (VString n ∉ rest) as Hn.
  { intros Hin. destruct (IH1 n Hin) as (f' & Hf' & Hm' & _).
    unfold attached in Hf'. simpl in Hf'.
    rewrite (console_get_set_eq _ _ _ g Hg) in Hf'. by injection Hf' as <-. }
  split.
  - intros name Hin. destruct (decide (name = n)) as [->|Hne].
    + exists g. destruct (IH2 n Hn) as [-> ->]. repeat split; try done.
      * unfold attached. simpl. by eapply console_get_set_eq.
      * by apply history_attached_eq.
    + apply elem_of_cons in Hin as [[=]|Hin]; [done|].
      destruct (IH1 name Hin) as (f' & Hf' & Hm' & Hc' & Hh').
      exists f'. repeat split; try done.
      unfold attached in Hf'. simpl in Hf'. by rewrite console_get_set_ne in Hf'.
  - intros name Hnot. apply not_elem_of_cons in Hnot as [Hne Hnot].
    assert (n ≠ name) by congruence.
    destruct (IH2 name Hnot) as [-> ->]. split.
    + unfold attached. simpl. by rewrite console_get_set_ne.
    + apply history_attached_ne. congruence.
Qed.

End Install.

(** ** The constructor *)

Section Constructor.
Context `{Host}.

Lemma Logger_new_eq arg w :
  Logger_new arg w =
    match destructure arg with
    | Throw e => (Throw e, w)
    | Ok (types, log) =>
        let w0 := set_heap (heap w ++ [∅]) w in
        match validate types log with
        | Throw e => (Throw e, w0)
        | Ok _ =>
            match install (length (heap w)) log (elements types) w0 with
            | (Ok _, w') => (Ok (length (heap w)), w')
            | (Throw e, w') => (Throw e, w')
            end
        end
    end.
Proof.
  unfold Logger_new, mbind, M_bind, lift, alloc, mret, M_ret.
  destruct (destructure arg) as [[types log]|e]; [|done]. cbn.
  destruct (validate types log) as [[]|e]; [|done]. cbn.
  by destruct (install _ _ _ _) as [[[]|e] w'].
Qed.

(** A property of the state that the allocation of the instance and every
    pass through the loop keep holds when the constructor is left. *)
Lemma Logger_new_invariant (P : World → Prop) arg w :
  P w → P (set_heap (heap w ++ [∅]) w) →
  (∀ types log w' name f,
     destructure arg = Ok (types, log) →
     P w' → console_get (console w') name = Some f →
     modified f = false → P (attached (length (heap w)) log name f w')) →
  P (Logger_new arg w).2.
Proof.
  intros Hw Hw0 Hstep. rewrite Logger_new_eq.
  destruct (destructure arg) as [[types log]|e]; [|done]. cbv zeta.
  destruct (validate types log) as [[]|e]; [|done].
  pose proof (install_invariant P (length (heap w)) log (elements types) _
                (λ w' name f, Hstep types log w' name f eq_refl) Hw0) as HP.
  by destruct (install _ _ _ _) as [[[]|e] w'].
Qed.

(** The constructor leaves the trace, the files and the clock alone. *)
Lemma Logger_new_outside arg w :
  out (Logger_new arg w).2 = out w ∧ files (Logger_new arg w).2 = files w
  ∧ ticks (Logger_new arg w).2 = ticks w.
Proof.
  by apply (Logger_new_invariant
              (λ w', out w' = out w ∧ files w' = files w ∧ ticks w' = ticks w)).
Qed.

(** It allocates one instance and leaves the existing ones alone. *)
Lemma Logger_new_heap arg w :
  destructure arg = Throw (TypeError "Cannot destructure null")
  ∨ length (heap (Logger_new arg w).2) = S (length (heap w)).
Proof.
  rewrite Logger_new_eq.
  destruct (destructure arg) as [[types log]|e] eqn:Hd.
  - right. cbv zeta. set (w0 := set_heap (heap w ++ [∅]) w).
    assert (length (heap w0) = S (length (heap w))) as Hlen.
    { subst w0. simpl. rewrite length_app. simpl. lia. }
    destruct (validate types log) as [[]|e]; [|done].
    pose proof (install_invariant (λ w', length (heap w') = S (length (heap w)))
                  (length (heap w)) log (elements types) w0) as HP.
    destruct (install _ _ _ _) as [[[]|e] w']; simpl in *; apply HP; try done;
      intros w1 name f Hw1 _ _; unfold attached; simpl; by rewrite length_alter.
  - left. destruct arg; simpl in Hd; congruence.
Qed.

Lemma Logger_new_heap_at arg w j :
  (j < length (heap w))%nat → heap (Logger_new arg w).2 !! j = heap w !! j.
Proof.
  intros Hj. apply (Logger_new_invariant (λ w', heap w' !! j = heap w !! j)).
  - done.
  - simpl. by apply lookup_app_l.
  - intros types log w' name f _ Hw' _ _. unfold attached. simpl.
    rewrite list_lookup_alter_ne; [done | lia].
Qed.

Lemma Logger_new_intercepted_once arg w :
  intercepted_once w → intercepted_once (Logger_new arg w).2.
Proof.
  intros Hw. apply (Logger_new_invariant intercepted_once); [done | done |].
  intros types log w' name f _ Hw' Hf Hm n g. unfold attached. simpl.
  destruct (decide (name = n)) as [->|Hne].
  - rewrite (console_get_set_eq _ _ _ f Hf). intros [= <-]. simpl.
    specialize (Hw' _ _ Hf). rewrite Hm in Hw'. by rewrite Hw'.
  - rewrite console_get_set_ne by done. apply Hw'.
Qed.

End Constructor.

(** ** Runs *)

Section Runs.
Context `{Host}.

Lemma console_call_console name args w :
  console (console_call name args w).2 = console w.
Proof.
  unfold console_call, mbind, M_bind, gets, throw. cbn.
  destruct (console_get (console w) name) as [f|]; [|done].
  apply call_console.
Qed.

Lemma console_call_heap_length name args w :
  length (heap (console_call name args w).2) = length (heap w).
Proof.
  unfold console_call, mbind, M_bind, gets, throw. cbn.
  destruct (console_get (console w) name) as [f|]; [|done].
  apply call_heap_length.
Qed.

Lemma pristine_intercepted_once w : pristine w → intercepted_once w.
Proof.
  intros [_ Hw] name f Hf. destruct (Hw _ _ Hf) as [Hc Hm].
  by rewrite Hc, Hm.
Qed.

Lemma step_intercepted_once a w :
  intercepted_once w → intercepted_once (step w a).
Proof.
  intros Hw. destruct a as [name args|arg]; simpl.
  - unfold intercepted_once. by rewrite console_call_console.
  - by apply Logger_new_intercepted_once.
Qed.

Lemma run_intercepted_once acts w :
  intercepted_once w → intercepted_once (run acts w).
Proof.
  revert w. induction acts as [|a acts IH]; intros w Hw; [done|].
  apply IH. by apply step_intercepted_once.
Qed.

Lemma rejected_throws arg types log w :
  destructure arg = Ok (types, log) → ¬ accepted types log →
  ∃ msg w',
    validate types log = Throw (Error msg)
    ∧ Logger_new arg w = (Throw (Error msg), w')
    ∧ console w' = console w
    ∧ out w' = out w ∧ files w' = files w
    ∧ ∀ j, (j < length (heap w))%nat → heap w' !! j = heap w !! j.
Proof.
  intros Hd Hno.
  destruct (validate_Error types log) as [Hok|[msg Hmsg]].
  { by apply validate_Ok in Hok. }
  exists msg, (set_heap (heap w ++ [∅]) w).
  rewrite Logger_new_eq, Hd. cbv zeta. rewrite Hmsg.
  repeat split; try done.
  intros j Hj. simpl. by apply lookup_app_l.
Qed.



(** C2. When the function that [console] holds for a name of [types] is
    marked, the constructor throws and leaves that function, its marker and
    every existing instance as they were; for a configuration that passes the
    checks the error is the one of line 62.  In a process that started with
    the runtime's functions every function of the console carries at most one
    interception, before and after the attempt. *)
Theorem second_attachment_fails arg types log w name f :
  destructure arg = Ok (types, log) →
  VString name ∈ elements types →
  console_get (console w) name = Some f → modified f = true →
  ∃ e w',
    Logger_new arg w = (Throw e, w')
    ∧ console_get (console w') name = Some f
    ∧ (∀ j, (j < length (heap w))%nat → heap w' !! j = heap w !! j)
    ∧ (validate types log = Ok () → ∃ name', e = attach_error name')
    ∧ (∀ w0 acts, pristine w0 → w = run acts w0 →
         ∀ n g, (console_get (console w) n = Some g →
                 (interceptions (code g) ≤ 1)%nat)
                ∧ (console_get (console w') n = Some g →
                   (interceptions (code g) ≤ 1)%nat)).
Proof.
  intros Hd Hin Hf Hm.
  assert (∃ e, (Logger_new arg w).1 = Throw e
               ∧ (validate types log = Ok () → ∃ name', e = attach_error name'))
    as (e & He & Hattach).
  { rewrite Logger_new_eq, Hd. cbv zeta.
    destruct (validate types log) as [[]|e] eqn:Hv.
    - apply validate_Ok in Hv as (_&_&_&_&_&_&_&_&Hkinds&_).
      destruct (install_marked (length (heap w)) log (elements types)
                  (set_heap (heap w ++ [∅]) w) name f Hkinds Hin Hf Hm)
        as (name' & w' & ->).
      simpl. eauto.
    - simpl. exists e. split; [done | discriminate]. }
  exists e, (Logger_new arg w).2. split; [|split; [|split; [|split]]].
  - rewrite <- He. by destruct (Logger_new arg w).
  - apply (Logger_new_invariant (λ w', console_get (console w') name = Some f));
      [done | done |].
    intros types' log' w' n g _ Hw' Hg Hmg. unfold attached. simpl.
    rewrite console_get_set_ne; [done|]. intros ->. congruence.
  - intros j Hj. by apply Logger_new_heap_at.
  - done.
  - intros w0 acts Hw0 -> n g.
    pose proof (run_intercepted_once acts w0 (pristine_intercepted_once _ Hw0))
      as Hrun.
    split; intros Hg.
    + rewrite (Hrun _ _ Hg). destruct (modified g); lia.
    + rewrite (Logger_new_intercepted_once arg _ Hrun _ _ Hg).
      destruct (modified g); lia.
Qed.

(** C3, as the code has it. A value that stands twice in [types] is nothing
    the checks of lines 37-58 refuse: they accept [types] exactly when they
    accept any array holding the same values.  But when they do accept, the
    constructor throws the error of line 62: the second occurrence finds the
    function marked. *)
Theorem duplicate_type_is_double_attachment arg types log w i j x :
  destructure arg = Ok (types, log) →
  (i < j)%nat → elements types !! i = Some x → elements types !! j = Some x →
  (∀ items', (∀ y, y ∈ elements types ↔ y ∈ items') →
     validate types log = Ok () ↔ validate (VArray items') log = Ok ())
  ∧ (validate types log = Ok () →
     ∃ name w', Logger_new arg w = (Throw (attach_error name), w')).
Proof.
  intros Hd Hij Hi Hj. split.
  - intros items' Hsame. destruct types; try done.
    by apply validate_elements.
  - intros Hv. rewrite Logger_new_eq, Hd. cbv zeta. rewrite Hv.
    apply validate_Ok in Hv as (_&_&_&_&_&_&_&_&Hkinds&_).
    destruct (install_duplicate (length (heap w)) log (elements types)
                (set_heap (heap w ++ [∅]) w) i j x Hkinds Hij Hi Hj)
      as (name & w' & ->).
    eauto.
Qed.

(** C9, as the code has it. After a successful construction the [logs] of
    the instance holds an empty array for every name of [types] and nothing
    else, whether or not the memory sink is configured. *)
Theorem logs_hold_every_type arg types log w this w' :
  destructure arg = Ok (types, log) →
  Logger_new arg w = (Ok this, w') →
  this = length (heap w)
  ∧ ∀ name,
      (VString name ∈ elements types → history w' this name = Some [])
      ∧ (VString name ∉ elements types → history w' this name = None).
Proof.
  intros Hd. rewrite Logger_new_eq, Hd. cbv zeta.
  destruct (validate types log) as [[]|e]; [|done].
  destruct (install _ _ _ _) as [[[]|e] w1] eqn:Hrun; [|done].
  intros [= <- <-]. split; [done|].
  apply install_Ok in Hrun as [H1 H2];
    [|simpl; rewrite length_app; simpl; lia].
  intros name. split.
  - intros Hin. by destruct (H1 name Hin) as (f & _ & _ & _ & Hh).
  - intros Hnot. destruct (H2 name Hnot) as [_ ->].
    unfold history. simpl.
    rewrite lookup_app_r, Nat.sub_diag by lia. simpl. apply lookup_empty.
Qed.

End Runs.

(** ** The wrapper *)

Lemma M_bind_Ok {A B} (m : M A) (f : A → M B) w b w' :
  (m ≫= f) w = (Ok b, w') ↔ ∃ a w1, m w = (Ok a, w1) ∧ f a w1 = (Ok b, w').
Proof.
  unfold mbind, M_bind. destruct (m w) as [[a|e] w1].
  - split; [by eauto|]. by intros (a' & w1' & [= <- <-] & Hf).
  - split; [discriminate|]. by intros (a' & w1' & [=] & _).
Qed.


Section Wrapper.
Context `{Host}.


Lemma memory_sink_eq this item log str w :
  memory_sink this item log str w =
    match history w this item with
    | Some l =>
        (Ok (),
         set_heap
           (alter (<[item := retain (get (get log "memory") "history")
                               (l ++ [Entry (clock (ticks w)) str])]>)
              this (heap w))
           (set_ticks (S (ticks w)) w))
    | None => (Throw (TypeError "Cannot read properties of undefined"), w)
    end.
Proof.
  unfold memory_sink, this_logs, set_this_logs, new_Date.
  unfold mbind, M_bind, gets, modify, throw, mret, M_ret. cbn.
  by destruct (history w this item).
Qed.

Lemma history_alter w this item (l l' : list entry) h :
  history w this item = Some l →
  h = alter (<[item := l']>) this (heap w) →
  (h !! this ≫= (.!! item)) = Some l'.
Proof.
  unfold history. intros Hl ->. rewrite list_lookup_alter_eq.
  destruct (heap w !! this) as [logs|]; [|done]. simpl.
  apply lookup_insert_eq.
Qed.

(** The sinks, when they return with the memory sink on, have pushed one
    entry for the message and cut the array to its bound. *)
Lemma sinks_memory this item log str w w' :
  truthy (get log "memory") = true →
  sinks this item log str w = (Ok (), w') →
  ∃ l t, history w this item = Some l
         ∧ history w' this item
           = Some (retain (get (get log "memory") "history") (l ++ [Entry t str])).
Proof.
  intros Hm. unfold sinks. rewrite Hm.
  intros ([] & w1 & Hfile & ([] & w2 & Hmem & Hemit)%M_bind_Ok)%M_bind_Ok.
  assert (heap w1 = heap w) as Hw1.
  { destruct (truthy (get log "file")); [|by injection Hfile as <-].
    pose proof (file_sink_preserves same_heap item log str
                  (λ _ _, eq_refl) (λ _ _, eq_refl) w) as Hp.
    by rewrite Hfile in Hp. }
  assert (heap w' = heap w2) as Hw2.
  { destruct (truthy (get log "emit")); [|by injection Hemit as <-].
    pose proof (emit_preserves same_heap this item str (λ _ _, eq_refl) w2) as Hp.
    by rewrite Hemit in Hp. }
  rewrite memory_sink_eq in Hmem.
  destruct (history w1 this item) as [l|] eqn:Hl; [|done].
  injection Hmem as <-. exists l, (clock (ticks w1)). split.
  - unfold history in *. by rewrite <- Hw1.
  - unfold history at 1. rewrite Hw2. simpl.
    by eapply history_alter.
Qed.





Lemma call_wrapper_eq this item log o args w :
  call (Wrapper this item log o) args w =
    match call o args w with
    | (Ok _, w1) => sinks this item log (render args) w1
    | (Throw e, w1) => (Throw e, w1)
    end.
Proof. reflexivity. Qed.

Lemma interceptions_0 f : interceptions f = 0%nat → ∃ name, f = Native name.
Proof. destruct f; [eauto | discriminate]. Qed.

Lemma owners_below_silent n j f :
  owners_below n f → (n ≤ j)%nat → ¬ records_for j f.
Proof.
  induction f as [name|this item log o IH]; simpl; [tauto|].
  intros [Hlt Ho] Hle [[-> _]|Hr]; [lia | by apply IH].
Qed.

(** One call of the wrapper that sits in [console[name]] over the runtime's
    function. *)
Lemma console_call_wrapper name this log n0 args w r w' :
  console_get (console w) name
  = Some (FunObj (Wrapper this name log (Native n0)) true) →
  console_call name args w = (r, w') →
  sinks this name log (render args) (set_out (out w ++ [Output n0 args]) w)
  = (r, w').
Proof.
  intros Hf. unfold console_call, mbind, M_bind, gets. cbn. by rewrite Hf.
Qed.



End Wrapper.

(** ** The trace of a call *)

#[local] Instance emits_po this item str : PreOrder (emits this item str).
Proof.
  split.
  - intros w. exists []. by rewrite app_nil_r.
  - intros w1 w2 w3 (evs1 & H1 & Hf1) (evs2 & H2 & Hf2).
    exists (evs1 ++ evs2). rewrite H2, H1, app_assoc. split; [done|].
    by apply Forall_app.
Qed.

Section Trace.
Context `{Host}.

Lemma sinks_emits this item log str :
  preserves (emits this item str) (sinks this item log str).
Proof.
  assert (∀ w w', out w' = out w → emits this item str w w') as Hsame.
  { intros w w' Ho. exists []. by rewrite app_nil_r. }
  unfold sinks.
  apply (preserves_bind _); [|intros _; apply (preserves_bind _); [|intros _]].
  - destruct (truthy (get log "file")); [|apply (preserves_ret _)].
    apply file_sink_preserves; [apply _ | |]; intros; by apply Hsame.
  - destruct (truthy (get log "memory")); [|apply (preserves_ret _)].
    apply memory_sink_preserves; [apply _ | |]; intros; by apply Hsame.
  - destruct (truthy (get log "emit")); [|apply (preserves_ret _)].
    intros w. exists [Emit this item str]. split; [|by constructor].
    unfold emit, mbind, M_bind, gets, modify, throw, mret, M_ret. cbn.
    by destruct (emit_fails w this item str).
Qed.

(** C7. The wrapper starts by calling the captured original on its own
    arguments, in the state it was entered in and whatever the configuration;
    the sinks run on the rendered arguments afterwards, in the state the
    original left, and not at all when the original throws.  Over the
    runtime's function the trace of the call is that function's output
    followed by nothing but the wrapper's own emissions. *)
Theorem original_called_first this item log o args w :
  ∃ r1 w1,
    call o args w = (r1, w1)
    ∧ call (Wrapper this item log o) args w
      = match r1 with
        | Ok _ => sinks this item log (render args) w1
        | Throw e => (Throw e, w1)
        end
    ∧ ∀ name, o = Native name →
        r1 = Ok ()
        ∧ w1 = set_out (out w ++ [Output name args]) w
        ∧ ∃ evs,
            out (call (Wrapper this item log o) args w).2
            = out w ++ Output name args :: evs
            ∧ Forall (λ ev, ev = Emit this item (render args)) evs.
Proof.
  destruct (call o args w) as [r1 w1] eqn:Ho. exists r1, w1.
  split; [done|]. split.
  { rewrite call_wrapper_eq, Ho. by destruct r1. }
  intros name ->. injection Ho as <- <-. split; [done|]. split; [done|].
  rewrite call_wrapper_eq. cbn [call modify].
  destruct (sinks_emits this item log (render args)
              (set_out (out w ++ [Output name args]) w)) as (evs & Hout & Hevs).
  exists evs. split; [|done].
  rewrite Hout. simpl. by rewrite <- app_assoc.
Qed.

End Trace.

(** ** The memory sink over the life of an instance *)

Section Memory.
Context `{Host}.

Lemma Logger_new_Ok arg types log w this w' :
  destructure arg = Ok (types, log) →
  Logger_new arg w = (Ok this, w') →
  this = length (heap w)
  ∧ validate types log = Ok ()
  ∧ install this log (elements types) (set_heap (heap w ++ [∅]) w) = (Ok (), w').
Proof.
  intros Hd. rewrite Logger_new_eq, Hd. cbv zeta.
  destruct (validate types log) as [[]|e]; [|done].
  destruct (install _ _ _ _) as [[[]|e] w1] eqn:Hrun; [|done].
  by intros [= <- <-].
Qed.

(** After a successful construction in a process whose functions carry the
    interceptions their markers say, [console[name]] is the instance's
    wrapper over the runtime's function, and its array is empty. *)
Lemma Logger_new_wrapper arg types log w this w' name :
  intercepted_once w →
  destructure arg = Ok (types, log) →
  Logger_new arg w = (Ok this, w') →
  VString name ∈ elements types →
  history w' this name = Some []
  ∧ ∃ n0, console_get (console w') name
          = Some (FunObj (Wrapper this name log (Native n0)) true).
Proof.
  intros Hw Hd Hnew Hin.
  destruct (Logger_new_Ok _ _ _ _ _ _ Hd Hnew) as (-> & _ & Hrun).
  apply install_Ok in Hrun as [H1 _]; [|simpl; rewrite length_app; simpl; lia].
  destruct (H1 name Hin) as (f & Hf & Hm & Hc & Hh). split; [done|].
  simpl in Hf. specialize (Hw _ _ Hf). rewrite Hm in Hw.
  destruct (interceptions_0 _ Hw) as [n0 Hn0]. exists n0. by rewrite Hc, Hn0.
Qed.

Lemma step_silent this a w :
  silent_for this w →
  silent_for this (step w a) ∧ heap (step w a) !! this = heap w !! this.
Proof.
  intros [Hlt Hs]. destruct a as [name args|arg]; simpl.
  - split; [split|].
    + by rewrite console_call_heap_length.
    + by rewrite console_call_console.
    + unfold console_call, mbind, M_bind, gets, throw. cbn.
      destruct (console_get (console w) name) as [f|] eqn:Hf; [|done].
      apply call_heap_at. by eapply Hs.
  - apply (Logger_new_invariant
             (λ w', silent_for this w' ∧ heap w' !! this = heap w !! this)).
    + done.
    + split; [split|]; simpl.
      * rewrite length_app. lia.
      * done.
      * by apply lookup_app_l.
    + intros types log w' name f _ [[Hlt' Hs'] Hh'] Hf Hmf.
      unfold attached. split; [split|]; simpl.
      * by rewrite length_alter.
      * intros name' g. destruct (decide (name = name')) as [->|Hne].
        -- rewrite (console_get_set_eq _ _ _ f Hf). intros [= <-]. simpl.
           intros [[Heq _]|Hr]; [lia | by eapply Hs'].
        -- rewrite console_get_set_ne by done. apply Hs'.
      * rewrite list_lookup_alter_ne; [done | lia].
Qed.

Lemma run_silent this acts w :
  silent_for this w →
  silent_for this (run acts w) ∧ heap (run acts w) !! this = heap w !! this.
Proof.
  revert w. induction acts as [|a acts IH]; intros w Hw; [done|].
  destruct (step_silent this a w Hw) as [Hs Hh].
  destruct (IH _ Hs) as [Hs' Hh']. split; [done|].
  cbn [run fold_left] in *. unfold run in Hh'. congruence.
Qed.

(** A Logger without the memory sink has no function in the console that
    records into it. *)
Lemma Logger_new_silent arg types log w this w' :
  wf w →
  destructure arg = Ok (types, log) →
  Logger_new arg w = (Ok this, w') →
  truthy (get log "memory") = false →
  silent_for this w'.
Proof.
  intros Hwf Hd Hnew Hm.
  destruct (Logger_new_Ok _ _ _ _ _ _ Hd Hnew) as (-> & _ & _).
  assert (∀ name f, console_get (console w) name = Some f →
            ¬ records_for (length (heap w)) (code f)) as Hw.
  { intros name f Hf. eapply owners_below_silent; [by eapply Hwf | done]. }
  split.
  - destruct (Logger_new_heap arg w) as [Hnull|Hlen]; [congruence|].
    rewrite Hnew in Hlen. simpl in Hlen. lia.
  - pose proof (Logger_new_invariant
      (λ w1, ∀ name f, console_get (console w1) name = Some f →
               ¬ records_for (length (heap w)) (code f)) arg w Hw Hw) as HP.
    rewrite Hnew in HP. apply HP.
    intros types' log' w1 name f Hd' Hs Hf Hmf name' g.
    assert (log' = log) as -> by congruence.
    unfold attached. simpl.
    destruct (decide (name = name')) as [->|Hne].
    + rewrite (console_get_set_eq _ _ _ f Hf). intros [= <-]. simpl.
      intros [[_ Hon]|Hr]; [congruence | by eapply Hs].
    + rewrite console_get_set_ne by done. apply Hs.
Qed.

(** C10. For a successfully constructed Logger whose configuration has no
    memory sink, nothing the program does afterwards (calls of the output
    functions with any arguments, further constructions) changes the [logs]
    of the instance: the arrays made at construction stay empty, whatever the
    other sinks are. *)
Theorem no_memory_sink_keeps_logs arg types log w this w1 :
  wf w →
  destructure arg = Ok (types, log) →
  Logger_new arg w = (Ok this, w1) →
  truthy (get log "memory") = false →
  ∀ acts,
    heap (run acts w1) !! this = heap w1 !! this
    ∧ ∀ name, VString name ∈ elements types →
        history (run acts w1) this name = Some [].
Proof.
  intros Hwf Hd Hnew Hm acts.
  pose proof (Logger_new_silent _ _ _ _ _ _ Hwf Hd Hnew Hm) as Hs.
  destruct (run_silent this acts w1 Hs) as [_ Hh]. split; [done|].
  intros name Hin. unfold history. rewrite Hh.
  destruct (Logger_new_Ok _ _ _ _ _ _ Hd Hnew) as (-> & _ & Hrun).
  apply install_Ok in Hrun as [H1 _]; [|simpl; rewrite length_app; simpl; lia].
  by destruct (H1 name Hin) as (f & _ & _ & _ & Hh1).
Qed.

End Memory.

(** ** The checks on the sinks *)

Lemma result_bind_Throw (m k : result unit) e :
  (m ;; k) = Throw e ↔ m = Throw e ∨ (m = Ok () ∧ k = Throw e).
Proof.
  destruct m as [[]|e']; simpl.
  - split; [by right | by intros [|[_ ?]]].
  - split; [by left | by intros [|[? _]]].
Qed.

Lemma throw_if_Throw c e e' : throw_if c e = Throw e' ↔ c = true ∧ e' = e.
Proof. destruct c; simpl; split; (intros [=] || intros [[=] ?]); by subst. Qed.

Lemma for_each_Throw {A} (p : A → bool) (e : A → exn) (l : list A) e' :
  for_each l (λ x, throw_if (negb (p x)) (e x)) = Throw e' → ∃ x, e' = e x.
Proof.
  induction l as [|x l IH]; simpl; [done|].
  destruct (p x); simpl; [done|]. intros [= <-]. eauto.
Qed.

(** Goes through the checks one by one to find which of them threw the
    error at hand; the messages tell them apart. *)
Ltac which_check :=
  repeat match goal with
    | H : _ ∨ _ |- _ => destruct H as [H|H]
    | H : _ ∧ _ |- _ => destruct H
    | H : Error _ = Error _ |- _ => discriminate H
    | H : for_each _ _ = Throw _ |- _ => apply for_each_Throw in H as [? ?]
    end; done.

Section Sinks.
Context `{Host}.

(** The error of line 45 is thrown exactly when the checks before it pass,
    the memory sink is there and [isNaN] holds of its [history]. *)
Lemma history_check types log :
  validate types log = Throw (Error "Invalid memory history size") ↔
    truthy types = true ∧ truthy log = true ∧ isArray types = true
    ∧ elements types ≠ [] ∧ keys log ≠ []
    ∧ (truthy (get log "file") && negb (truthy (get (get log "file") "dir"))
       && negb (String.eqb (typeof (get (get log "file") "dir")) "string")) = false
    ∧ truthy (get log "memory") = true
    ∧ isNaN (get (get log "memory") "history") = true.
Proof.
  unfold validate. cbv zeta.
  rewrite !result_bind_Throw, !throw_if_Throw, !throw_if_Ok, !negb_true_iff,
    !negb_false_iff, !andb_true_iff, !Nat.eqb_neq, !length_zero_iff_nil.
  split.
  - intros Hv. which_check.
  - intros (?&?&?&?&?&?&?&?). do 6 (right; split; [done|]). by left.
Qed.

(** C5, as the code has it. With the memory sink present the constructor
    throws whenever [isNaN(log.memory.history)], with the console as it was,
    and the error of line 45 is thrown only then: a [history] that is a
    number other than NaN passes the check, be it zero, negative or
    infinite. *)
Theorem history_must_not_be_NaN arg types log w :
  destructure arg = Ok (types, log) →
  truthy (get log "memory") = true →
  (isNaN (get (get log "memory") "history") = true →
     ∃ msg w', Logger_new arg w = (Throw (Error msg), w')
               ∧ console w' = console w)
  ∧ (validate types log = Throw (Error "Invalid memory history size") →
       isNaN (get (get log "memory") "history") = true)
  ∧ (∀ v, get (get log "memory") "history" = VNumber v → v ≠ NaN →
       validate types log ≠ Throw (Error "Invalid memory history size")).
Proof.
  intros Hd Hm. split; [|split].
  - intros Hnan.
    destruct (rejected_throws arg types log w Hd) as (msg & w' & _ & Hnew & Hc & _).
    + intros (_&_&_&_&_&_&Hcheck&_). by rewrite Hm, Hnan in Hcheck.
    + eauto.
  - by intros (_&_&_&_&_&_&_&Hnan)%history_check.
  - intros v Hv Hne (_&_&_&_&_&_&_&Hnan)%history_check.
    rewrite Hv in Hnan. unfold isNaN in Hnan. simpl in Hnan. by destruct v.
Qed.

(** The error of line 44 is thrown exactly when the checks before it pass,
    the file sink is there and its [dir] is falsy and not a string. *)
Lemma dir_check types log :
  validate types log = Throw (Error "Invalid dir") ↔
    truthy types = true ∧ truthy log = true ∧ isArray types = true
    ∧ elements types ≠ [] ∧ keys log ≠ []
    ∧ truthy (get log "file") = true
    ∧ truthy (get (get log "file") "dir") = false
    ∧ String.eqb (typeof (get (get log "file") "dir")) "string" = false.
Proof.
  unfold validate. cbv zeta.
  rewrite !result_bind_Throw, !throw_if_Throw, !throw_if_Ok, !negb_true_iff,
    !negb_false_iff, !andb_true_iff, !negb_true_iff, !Nat.eqb_neq,
    !length_zero_iff_nil.
  split.
  - intros Hv. which_check.
  - intros (?&?&?&?&?&?&?&?). do 5 (right; split; [done|]). by left.
Qed.

(** C4. The check of line 44 throws only for a [dir] that is falsy and not a
    string.  On [{types: ["log"], log: {file: {dir}}}] a missing [dir] is
    refused, but the number 5 and the empty string are let through, and with
    the number every call of the wrapper throws in [path.resolve]. *)
Theorem dir_check_lets_non_strings_through :
  (∀ types log,
     validate types log = Throw (Error "Invalid dir") →
     truthy (get (get log "file") "dir") = false
     ∧ typeof (get (get log "file") "dir") ≠ "string")
  ∧ (Logger_new (config ["log"] (file_sink_of VUndefined)) fresh).1
    = Throw (Error "Invalid dir")
  ∧ (Logger_new (config ["log"] (file_sink_of (VNumber (Int 5)))) fresh).1
    = Ok 0%nat
  ∧ (Logger_new (config ["log"] (file_sink_of (VString ""))) fresh).1 = Ok 0%nat
  ∧ (console_call "log" [VString "x"]
       (Logger_new (config ["log"] (file_sink_of (VNumber (Int 5)))) fresh).2).1
    = Throw (TypeError "The paths[0] argument must be of type string").
Proof.
  split; [|repeat split; vm_compute; reflexivity].
  intros types log (_&_&_&_&_&_&Hdir&Hty)%dir_check. split; [done|].
  by apply String.eqb_neq.
Qed.

End Sinks.

(** * The properties at work in a fresh process *)

Lemma fresh_pristine : pristine fresh.
Proof.
  split; [done|]. intros name f. unfold console_get.
  repeat case_decide; subst; intros [= <-]; done.
Qed.

Lemma fresh_wf : wf fresh.
Proof.
  intros name f Hf. destruct fresh_pristine as [_ Hp].
  destruct (Hp _ _ Hf) as [-> _]. done.
Qed.

(** A second Logger for [log] fails and leaves the first one's wrapper in
    place. *)
Lemma second_attachment_fails_witness :
  ∃ e w',
    Logger_new (H:=small_host) (config ["log"] emit_sink)
      (Logger_new (H:=small_host) (config ["log"] emit_sink) fresh).2
    = (Throw e, w')
    ∧ console_get (console w') "log"
      = Some (FunObj (Wrapper 0 "log" (VObject emit_sink) (Native "log")) true).
Proof.
  destruct (second_attachment_fails (H:=small_host)
    (config ["log"] emit_sink) (VArray [VString "log"]) (VObject emit_sink)
    (Logger_new (H:=small_host) (config ["log"] emit_sink) fresh).2
    "log" (FunObj (Wrapper 0 "log" (VObject emit_sink) (Native "log")) true)
    eq_refl (list_elem_of_here _ _) eq_refl eq_refl)
    as (e & w' & Hnew & Hlog & _).
  exists e, w'. split; assumption.
Defined.


(** C3 as stated fails: [types: ["log", "log"]] passes the checks, yet the
    constructor throws, where [types: ["log"]] succeeds. *)
Lemma duplicate_types_counterexample :
  (∀ host : Host,
     validate (H:=host) (VArray [VString "log"; VString "log"]) (VObject emit_sink)
     = Ok ())
  ∧ (∀ host : Host,
       (Logger_new (H:=host) (config ["log"; "log"] emit_sink) fresh).1
       = Throw (attach_error "log"))
  ∧ (∀ host : Host,
       (Logger_new (H:=host) (config ["log"] emit_sink) fresh).1 = Ok 0%nat).
Proof. repeat split; intros host; vm_compute; reflexivity. Qed.

Lemma duplicate_type_is_double_attachment_witness :
  ∃ name w',
    Logger_new (H:=small_host) (config ["log"; "warn"; "log"] emit_sink) fresh
    = (Throw (attach_error name), w').
Proof.
  apply (proj2 (duplicate_type_is_double_attachment (H:=small_host)
    (config ["log"; "warn"; "log"] emit_sink)
    (VArray [VString "log"; VString "warn"; VString "log"]) (VObject emit_sink)
    fresh 0 2 (VString "log") eq_refl ltac:(lia) eq_refl eq_refl)).
  reflexivity.
Defined.

(** C5 as stated fails: zero, a negative number, an infinity and [null] are
    all accepted for [history]. *)
Lemma history_counterexample :
  (∀ host : Host,
     (Logger_new (H:=host) (config ["log"] (memory_sink_of (VNumber (Int 0))))
        fresh).1 = Ok 0%nat)
  ∧ (∀ host : Host,
       (Logger_new (H:=host) (config ["log"] (memory_sink_of (VNumber (Int (-1)))))
          fresh).1 = Ok 0%nat)
  ∧ (∀ host : Host,
       (Logger_new (H:=host) (config ["log"] (memory_sink_of (VNumber NegInf)))
          fresh).1 = Ok 0%nat)
  ∧ (∀ host : Host,
       (Logger_new (H:=host) (config ["log"] (memory_sink_of VNull)) fresh).1
       = Ok 0%nat).
Proof. repeat split; intros host; vm_compute; reflexivity. Qed.

Lemma history_must_not_be_NaN_witness :
  ∃ msg w',
    Logger_new (H:=small_host) (config ["log"] (memory_sink_of (VNumber NaN))) fresh
    = (Throw (Error msg), w')
    ∧ console w' = console fresh.
Proof.
  apply (proj1 (history_must_not_be_NaN (H:=small_host)
    (config ["log"] (memory_sink_of (VNumber NaN)))
    (VArray [VString "log"]) (VObject (memory_sink_of (VNumber NaN)))
    fresh eq_refl eq_refl)).
  reflexivity.
Defined.

(** C9 as stated fails: without the memory sink [logs.log] is there, an
    empty array. *)
Lemma logs_without_memory_counterexample :
  truthy (get (VObject emit_sink) "memory") = false
  ∧ ∀ host : Host,
      (Logger_new (H:=host) (config ["log"] emit_sink) fresh).1 = Ok 0%nat
      ∧ history (Logger_new (H:=host) (config ["log"] emit_sink) fresh).2 0 "log"
        = Some [].
Proof. split; [reflexivity|]. intros host. split; vm_compute; reflexivity. Qed.

Lemma logs_hold_every_type_witness :
  history (Logger_new (H:=small_host) (config ["log"] emit_sink) fresh).2 0 "log"
  = Some []
  ∧ history (Logger_new (H:=small_host) (config ["log"] emit_sink) fresh).2 0 "warn"
    = None.
Proof.
  destruct (logs_hold_every_type (H:=small_host)
    (config ["log"] emit_sink) (VArray [VString "log"]) (VObject emit_sink)
    fresh 0 (Logger_new (H:=small_host) (config ["log"] emit_sink) fresh).2
    eq_refl eq_refl) as [_ Hlogs].
  split.
  - apply (proj1 (Hlogs "log")). apply list_elem_of_here.
  - apply (proj2 (Hlogs "warn")). intros Hin.
    apply list_elem_of_singleton in Hin. discriminate Hin.
Defined.

(** Two calls of [console.log] on a Logger with the emit sink only leave its
    array empty. *)
Lemma no_memory_sink_keeps_logs_witness :
  history
    (run (H:=small_host) [Call "log" [VString "a"]; Call "log" [VString "b"]]
       (Logger_new (H:=small_host) (config ["log"] emit_sink) fresh).2)
    0 "log" = Some [].
Proof.
  apply (proj2 (no_memory_sink_keeps_logs (H:=small_host)
    (config ["log"] emit_sink) (VArray [VString "log"]) (VObject emit_sink)
    fresh 0 (Logger_new (H:=small_host) (config ["log"] emit_sink) fresh).2
    fresh_wf eq_refl eq_refl eq_refl
    [Call "log" [VString "a"]; Call "log" [VString "b"]])).
  apply list_elem_of_here.
Defined.

(** * Further properties of the class *)

(** ** Construction *)

Section Construction.
Context `{Host}.

(** The loop never touches a function that is marked. *)
Lemma install_keeps_marked this log items w name f :
  console_get (console w) name = Some f → modified f = true →
  console_get (console (install this log items w).2) name = Some f.
Proof.
  intros Hf Hm.
  apply (install_invariant (λ w', console_get (console w') name = Some f));
    [|done].
  intros w' n g Hw' Hg Hmg. unfold attached. simpl.
  rewrite console_get_set_ne; [done|]. intros ->. congruence.
Qed.

(** The loop comes to the end of [types] exactly when no value stands twice
    in it and none of its functions is marked. *)
Lemma install_succeeds_iff this log items w :
  Forall kind_value items →
  (∃ w', install this log items w = (Ok (), w')) ↔
    NoDup items
    ∧ ∀ name f, VString name ∈ items →
        console_get (console w) name = Some f → modified f = false.
Proof.
  intros Hkinds. revert w.
  induction Hkinds as [|item rest Hitem _ IH]; intros w.
  { split; [|by eauto]. intros _. split; [constructor|].
    intros name f Hin. by apply elem_of_nil in Hin. }
  rewrite install_cons.
  destruct (console_item_kind (console w) item Hitem) as (n & g & Hg).
  rewrite Hg. apply console_item_Some in Hg as [-> Hg].
  assert (console_get (console (attached this log n g w)) n
          = Some (FunObj (Wrapper this n log (code g)) true)) as Hn.
  { unfold attached. simpl. by eapply console_get_set_eq. }
  split.
  - intros [w' Hrun]. destruct (modified g) eqn:Hmg; [done|].
    destruct (proj1 (IH _) (ex_intro _ w' Hrun)) as [Hnd Hrest].
    assert (VString n ∉ rest) as Hnot.
    { intros Hin. by specialize (Hrest n _ Hin Hn). }
    split; [by constructor|].
    intros name f [[= ->]|Hin]%elem_of_cons Hf; [congruence|].
    apply (Hrest name f Hin). unfold attached. simpl.
    rewrite console_get_set_ne; [done|]. by intros ->.
  - intros [[Hnot Hnd]%NoDup_cons Hall].
    rewrite (Hall n g (list_elem_of_here _ _) Hg).
    apply IH. split; [done|].
    intros name f Hin. unfold attached. simpl.
    rewrite console_get_set_ne by (by intros ->).
    apply Hall. by apply list_elem_of_further.
Qed.

(** X1. The constructor returns an instance exactly when the configuration
    passes the checks of lines 37-58, no value stands twice in [types], and
    none of the functions that [types] names is marked. *)
Theorem construction_succeeds_iff arg types log w :
  destructure arg = Ok (types, log) →
  (∃ this w', Logger_new arg w = (Ok this, w')) ↔
    accepted types log
    ∧ NoDup (elements types)
    ∧ ∀ name f, VString name ∈ elements types →
        console_get (console w) name = Some f → modified f = false.
Proof.
  intros Hd. rewrite Logger_new_eq, Hd. cbv zeta.
  rewrite <- validate_Ok.
  destruct (validate types log) as [[]|e] eqn:Hv.
  - apply validate_Ok in Hv as Hacc.
    destruct Hacc as (_&_&_&_&_&_&_&_&Hkinds&_).
    pose proof (install_succeeds_iff (length (heap w)) log (elements types)
                  (set_heap (heap w ++ [∅]) w) Hkinds) as Hiff.
    simpl in Hiff. rewrite <- Hiff. split.
    + intros (this & w' & Hrun). split; [done|].
      destruct (install _ _ _ _) as [[[]|e] w1]; [by eauto | done].
    + intros [_ [w' ->]]. eauto.
  - split; [by intros (? & ? & ?) | by intros [? _]].
Qed.

(** X2. A successful construction has replaced the function of every name
    of [types] by the instance's wrapper around that very function, marked,
    and has left the other functions of the console alone. *)
Theorem construction_installs_wrappers arg types log w this w' :
  destructure arg = Ok (types, log) →
  Logger_new arg w = (Ok this, w') →
  ∀ name,
    (VString name ∈ elements types →
       ∃ f, console_get (console w) name = Some f ∧ modified f = false
            ∧ console_get (console w') name
              = Some (FunObj (Wrapper this name log (code f)) true))
    ∧ (VString name ∉ elements types →
         console_get (console w') name = console_get (console w) name).
Proof.
  intros Hd Hnew name.
  destruct (Logger_new_Ok _ _ _ _ _ _ Hd Hnew) as (-> & _ & Hrun).
  apply install_Ok in Hrun as [H1 H2];
    [|simpl; rewrite length_app; simpl; lia].
  split.
  - intros Hin. destruct (H1 name Hin) as (f & Hf & Hm & Hc & _). eauto.
  - intros Hnot. by destruct (H2 name Hnot) as [-> _].
Qed.

(** The loop over [pre ++ name :: post], where the functions of [pre] are
    unmarked and the one of [name] is marked. *)
Lemma install_prefix this log pre name post w f :
  Forall kind_value pre → NoDup pre →
  (∀ n g, VString n ∈ pre → console_get (console w) n = Some g →
          modified g = false) →
  console_get (console w) name = Some f → modified f = true →
  ∃ w',
    install this log (pre ++ VString name :: post) w
    = (Throw (attach_error name), w')
    ∧ ∀ n, VString n ∈ pre →
        ∃ g, console_get (console w) n = Some g
             ∧ console_get (console w') n
               = Some (FunObj (Wrapper this n log (code g)) true).
Proof.
  intros Hkinds. revert w.
  induction Hkinds as [|item rest Hitem _ IH]; intros w Hnd Hall Hf Hm.
  { exists w. rewrite app_nil_l, install_cons.
    rewrite (proj2 (console_item_Some _ _ _ _) (conj eq_refl Hf)), Hm.
    split; [done|]. intros n Hin. by apply elem_of_nil in Hin. }
  apply NoDup_cons in Hnd as [Hnot Hnd].
  destruct (console_item_kind (console w) item Hitem) as (n0 & g0 & Hg0).
  apply console_item_Some in Hg0 as [-> Hg0].
  pose proof (Hall n0 g0 (list_elem_of_here _ _) Hg0) as Hm0.
  assert (n0 ≠ name) as Hne by (intros ->; congruence).
  destruct (IH (attached this log n0 g0 w) Hnd) as (w' & Hrun & Hpre).
  - intros n g Hin. unfold attached. simpl.
    rewrite console_get_set_ne by (by intros ->).
    apply Hall. by apply list_elem_of_further.
  - unfold attached. simpl. by rewrite console_get_set_ne.
  - done.
  - exists w'. split.
    + change ((VString n0 :: rest) ++ VString name :: post)
        with (VString n0 :: (rest ++ VString name :: post)).
      rewrite install_cons.
      by rewrite (proj2 (console_item_Some _ _ _ _) (conj eq_refl Hg0)), Hm0.
    + intros n [[= ->]|Hin]%elem_of_cons.
      * exists g0. split; [done|].
        pose proof (install_keeps_marked this log (rest ++ VString name :: post)
                      (attached this log n0 g0 w) n0
                      (FunObj (Wrapper this n0 log (code g0)) true)) as Hkeep.
        rewrite Hrun in Hkeep. apply Hkeep; [|done].
        unfold attached. simpl. by eapply console_get_set_eq.
      * destruct (Hpre n Hin) as (g & Hg & Hw'). exists g. split; [|done].
        unfold attached in Hg. simpl in Hg.
        rewrite console_get_set_ne in Hg; [done|]. by intros ->.
Qed.

(** X3. There is no rollback. When [types] is [pre], then a name whose
    function is marked, then anything, and the functions of [pre] are
    unmarked, the constructor throws the error of line 62 for that name and
    leaves every function of [pre] wrapped and marked, for an instance that
    nobody holds; constructing again with the same [types] then fails at its
    first name. *)
Theorem failed_construction_keeps_earlier_wrappers
  arg types log w pre name post f :
  destructure arg = Ok (types, log) → accepted types log →
  elements types = pre ++ VString name :: post →
  NoDup pre →
  (∀ n g, VString n ∈ pre → console_get (console w) n = Some g →
          modified g = false) →
  console_get (console w) name = Some f → modified f = true →
  ∃ w',
    Logger_new arg w = (Throw (attach_error name), w')
    ∧ (∀ n, VString n ∈ pre →
         ∃ g, console_get (console w) n = Some g
              ∧ console_get (console w') n
                = Some (FunObj (Wrapper (length (heap w)) n log (code g)) true))
    ∧ ∀ n rest, pre = VString n :: rest →
        ∃ w'', Logger_new arg w' = (Throw (attach_error n), w'').
Proof.
  intros Hd Hacc Hel Hnd Hall Hf Hm.
  pose proof Hacc as (_&_&_&_&_&_&_&_&Hkinds&_).
  rewrite Hel in Hkinds. apply Forall_app in Hkinds as [Hpre _].
  destruct (install_prefix (length (heap w)) log pre name post
              (set_heap (heap w ++ [∅]) w) f Hpre Hnd Hall Hf Hm)
    as (w' & Hrun & Hwrapped).
  exists w'. split; [|split].
  - rewrite Logger_new_eq, Hd. cbv zeta.
    rewrite (proj2 (validate_Ok _ _) Hacc), Hel, Hrun. done.
  - done.
  - intros n rest ->.
    destruct (Hwrapped n (list_elem_of_here _ _)) as (g & _ & Hn).
    rewrite Logger_new_eq, Hd. cbv zeta.
    rewrite (proj2 (validate_Ok _ _) Hacc), Hel.
    change ((VString n :: rest) ++ VString name :: post)
      with (VString n :: (rest ++ VString name :: post)).
    rewrite install_cons. cbn [console set_heap].
    rewrite (proj2 (console_item_Some _ _ _ _) (conj eq_refl Hn)). simpl. eauto.
Qed.

(** X4. The constructor, whether it returns or throws, calls no output
    function, emits nothing, writes no file and makes no date; and it leaves
    the [logs] of every instance that exists alone. *)
Theorem construction_is_silent arg w :
  out (Logger_new arg w).2 = out w
  ∧ files (Logger_new arg w).2 = files w
  ∧ ticks (Logger_new arg w).2 = ticks w
  ∧ ∀ j, (j < length (heap w))%nat →
      heap (Logger_new arg w).2 !! j = heap w !! j.
Proof.
  destruct (Logger_new_outside arg w) as (Ho & Hf & Ht).
  repeat split; try done. intros j Hj. by apply Logger_new_heap_at.
Qed.

(** X5. An interception is never taken back: through whatever the program
    does afterwards (calls, further constructions), a marked function stays
    in the console as it is. *)
Theorem interception_is_permanent acts w name f :
  console_get (console w) name = Some f → modified f = true →
  console_get (console (run acts w)) name = Some f.
Proof.
  revert w. induction acts as [|a acts IH]; intros w Hf Hm; [done|].
  apply IH; [|done]. destruct a as [n args|arg]; simpl.
  - by rewrite console_call_console.
  - apply (Logger_new_invariant (λ w', console_get (console w') name = Some f));
      [done | done |].
    intros types log w' n g _ Hw' Hg Hmg. unfold attached. simpl.
    rewrite console_get_set_ne; [done|]. intros ->. congruence.
Qed.

End Construction.

(** ** The rendered message *)

Lemma last_unit_cons c d s : last_unit (String c (String d s)) = last_unit (String d s).
Proof. cbn. by destruct (last_unit s). Qed.

Lemma trimEnd_last s c : last_unit (trimEnd s) = Some c → is_white c = false.
Proof.
  induction s as [|a s IH]; [done|]. cbn [trimEnd].
  destruct (trimEnd s) as [|b t].
  - destruct (is_white a) eqn:Ha; [done|]. by intros [= <-].
  - rewrite last_unit_cons. apply IH.
Qed.

Lemma trimStart_first s c : first_unit (trimStart s) = Some c → is_white c = false.
Proof.
  induction s as [|a s IH]; [done|]. cbn [trimStart].
  destruct (is_white a) eqn:Ha; [done|]. by intros [= <-].
Qed.

Lemma trimStart_last s c :
  last_unit (trimStart s) = Some c → last_unit s = Some c.
Proof.
  induction s as [|a s IH]; [done|]. cbn [trimStart].
  destruct (is_white a); [|done].
  intros Hc. cbn. by rewrite (IH Hc).
Qed.

Section Rendered.
Context `{Host}.

(** X6. The rendered message neither starts nor ends with white space,
    whatever the arguments; no argument renders as the empty string, and a
    single string as that string trimmed. *)
Theorem rendered_message_is_trimmed :
  (∀ args c, first_unit (render args) = Some c → is_white c = false)
  ∧ (∀ args c, last_unit (render args) = Some c → is_white c = false)
  ∧ render [] = ""
  ∧ ∀ s, render [VString s] = trim s.
Proof.
  split; [|split; [|split]].
  - intros args c. apply trimStart_first.
  - intros args c Hc. apply trimStart_last in Hc. by apply trimEnd_last in Hc.
  - done.
  - intros s. unfold render. cbn [fold_left]. apply trim_space.
Qed.

End Rendered.

(** ** Trimming, in the words of the specification *)












Section Rendering_specified.
Context `{Host}.


End Rendering_specified.

(** ** Which error the checks throw *)

Lemma for_each_first {A} (p : A → bool) (e : A → exn) pre bad post :
  Forall (λ x, p x = true) pre → p bad = false →
  for_each (pre ++ bad :: post) (λ x, throw_if (negb (p x)) (e x))
  = Throw (e bad).
Proof.
  intros Hpre Hbad. induction Hpre as [|x pre Hx _ IH]; simpl.
  - by rewrite Hbad.
  - by rewrite Hx.
Qed.

Section Errors.
Context `{Host}.


(** X8. When everything before passes and every value of [types] is one of
    the four names, the first key of [log] that is not [file], [memory] or
    [emit] is the one the error names. *)
Theorem first_invalid_sink_is_reported items log kpre kbad kpost :
  sinks_checked log →
  items ≠ [] → Forall kind_value items →
  keys log = kpre ++ kbad :: kpost →
  Forall (λ key, key ∈ ["file"; "memory"; "emit"]) kpre →
  kbad ∉ ["file"; "memory"; "emit"] →
  validate (VArray items) log
  = Throw (Error ("Invalid log " +:+ kbad
                  +:+ ", must be one of file, memory, emit")).
Proof.
  intros (Hlog & Hkeys & Hdir & Hmem & Hts) Hne Hitems Hk Hkpre Hkbad.
  unfold validate. cbv zeta. cbn [elements]. rewrite Hlog, Hdir, Hmem, Hts.
  assert ((length items =? 0)%nat = false) as ->.
  { apply Nat.eqb_neq. by rewrite length_zero_iff_nil. }
  assert ((length (keys log) =? 0)%nat = false) as ->.
  { apply Nat.eqb_neq. by rewrite length_zero_iff_nil. }
  cbn [truthy isArray negb throw_if mbind result_bind].
  rewrite (proj2 (for_each_Ok (includes ["log"; "warn"; "error"; "debug"]) _ items)).
  - rewrite Hk.
    rewrite (for_each_first (λ key, includes ["file"; "memory"; "emit"] (VString key))).
    + done.
    + eapply Forall_impl; [done|]. intros x Hx. simpl. by apply bool_decide_eq_true.
    + simpl. by apply bool_decide_eq_false.
  - eapply Forall_impl; [done|]. intros x Hx. by apply includes_kind.
Qed.

(** The error of line 46 is thrown exactly when the checks before it pass,
    the file sink is there and its [timestamp] is truthy and no function. *)
Lemma timestamp_check types log :
  validate types log = Throw (Error "Invalid file timestamp") ↔
    truthy types = true ∧ truthy log = true ∧ isArray types = true
    ∧ elements types ≠ [] ∧ keys log ≠ []
    ∧ (truthy (get log "file") && negb (truthy (get (get log "file") "dir"))
       && negb (String.eqb (typeof (get (get log "file") "dir")) "string")) = false
    ∧ (truthy (get log "memory") && isNaN (get (get log "memory") "history")) = false
    ∧ truthy (get log "file") = true
    ∧ truthy (get (get log "file") "timestamp") = true
    ∧ String.eqb (typeof (get (get log "file") "timestamp")) "function" = false.
Proof.
  unfold validate. cbv zeta.
  rewrite !result_bind_Throw, !throw_if_Throw, !throw_if_Ok, !negb_true_iff,
    !negb_false_iff, !andb_true_iff, !negb_true_iff, !Nat.eqb_neq,
    !length_zero_iff_nil.
  split.
  - intros Hv. which_check.
  - intros (?&?&?&?&?&?&?&?&?&?). do 7 (right; split; [done|]). by left.
Qed.

Lemma timestamp_prefix_run ts w :
  timestamp_prefix ts w =
    if truthy ts then
      match ts with
      | VFunction f =>
          (if timestamp_fails (set_ticks (S (ticks w)) w) f (clock (ticks w))
           then Throw (StampError f)
           else Ok (call_timestamp f (clock (ticks w))),
           set_ticks (S (ticks w)) w)
      | _ => (Throw (TypeError "log.file.timestamp is not a function"),
              set_ticks (S (ticks w)) w)
      end
    else (Ok "", w).
Proof.
  unfold timestamp_prefix, new_Date.
  unfold mbind, M_bind, gets, throw, mret, M_ret.
  destruct (truthy ts); [|done]. destruct ts; try done.
  cbn. by destruct (timestamp_fails _ _ _).
Qed.


End Errors.

(** ** The file sink *)

#[local] Instance same_files_po : PreOrder same_files.
Proof. split; unfold same_files; [done | intros ???; congruence]. Qed.
#[local] Instance same_out_po : PreOrder same_out.
Proof. split; unfold same_out; [done | intros ???; congruence]. Qed.
#[local] Instance files_grow_po : PreOrder files_grow.
Proof.
  split.
  - intros w path. split; [done|]. exists "". by rewrite append_empty_r.
  - intros w1 w2 w3 H12 H23 path.
    destruct (H12 path) as [Hs12 [m1 Hm1]], (H23 path) as [Hs23 [m2 Hm2]].
    split; [by auto|]. exists (m1 +:+ m2). by rewrite Hm2, Hm1, append_assoc.
Qed.

Lemma same_files_grow w w' : files w' = files w → files_grow w w'.
Proof.
  intros Hf path. rewrite Hf. split; [done|]. exists "". by rewrite append_empty_r.
Qed.

Section Files.
Context `{Host}.

(** Lines 80-83 step by step. *)
Lemma file_sink_run item log str w :
  file_sink item log str w =
    match get (get log "file") "dir" with
    | VString d =>
        let res := path_resolve d (file_name item (clock (ticks w))) in
        match timestamp_prefix (get (get log "file") "timestamp")
                (set_ticks (S (ticks w)) w) with
        | (Ok p, w2) =>
            if write_fails w2 res then (Throw (SystemError res), w2)
            else (Ok (),
                  set_files (<[res := content (files w2) res
                                      +:+ (p +:+ str +:+ EOL)]> (files w2)) w2)
        | (Throw e, w2) => (Throw e, w2)
        end
    | _ => (Throw (TypeError "The paths[0] argument must be of type string"),
            set_ticks (S (ticks w)) w)
    end.
Proof.
  unfold file_sink, resolve, appendFileSync, new_Date, file_name, content.
  unfold mbind, M_bind, gets, modify, throw, mret, M_ret. cbn.
  destruct (get (get log "file") "dir"); try done. cbn.
  destruct (timestamp_prefix _ _) as [[p|e] w2]; [|done]. cbn.
  by destruct (write_fails w2 _).
Qed.

Lemma timestamp_prefix_frame ts w :
  heap (timestamp_prefix ts w).2 = heap w
  ∧ files (timestamp_prefix ts w).2 = files w
  ∧ out (timestamp_prefix ts w).2 = out w
  ∧ console (timestamp_prefix ts w).2 = console w.
Proof.
  rewrite timestamp_prefix_run.
  destruct (truthy ts); [|done]. by destruct ts.
Qed.

Lemma timestamp_prefix_ticks ts w :
  ticks (timestamp_prefix ts w).2
  = (ticks w + if truthy ts then 1 else 0)%nat.
Proof.
  rewrite timestamp_prefix_run.
  destruct (truthy ts); [|simpl; lia]. destruct ts; simpl; lia.
Qed.

(** What a prefix that was made is. *)
Lemma timestamp_prefix_Ok log w p w' :
  timestamp_prefix (get (get log "file") "timestamp") w = (Ok p, w') →
  p = stamp log (clock (ticks w)).
Proof.
  rewrite timestamp_prefix_run. unfold stamp.
  destruct (truthy (get (get log "file") "timestamp")) eqn:Htr.
  - destruct (get (get log "file") "timestamp"); try done.
    destruct (timestamp_fails _ _ _); [done|]. by intros [= <- _].
  - intros [= <- _]. by destruct (get (get log "file") "timestamp").
Qed.

(** The file sink, when it returns, has appended one line to one file. *)
Lemma file_sink_Ok item log str w w' :
  file_sink item log str w = (Ok (), w') →
  ∃ d, get (get log "file") "dir" = VString d
       ∧ files w'
         = <[path_resolve d (file_name item (clock (ticks w)))
             := content (files w)
                  (path_resolve d (file_name item (clock (ticks w))))
                +:+ (stamp log (clock (S (ticks w))) +:+ str +:+ EOL)]> (files w).
Proof.
  rewrite file_sink_run. intros Hrun.
  destruct (get (get log "file") "dir") as [| | | |d| | |]; try done.
  exists d. split; [done|]. cbv zeta in Hrun.
  pose proof (timestamp_prefix_frame (get (get log "file") "timestamp")
                (set_ticks (S (ticks w)) w)) as (_ & Hf & _).
  destruct (timestamp_prefix _ _) as [[p|e] w2] eqn:Hts; [|done].
  apply timestamp_prefix_Ok in Hts as ->. simpl in Hf.
  destruct (write_fails w2 _); [done|].
  injection Hrun as <-. simpl. by rewrite Hf.
Qed.

(** When it throws, it has written nothing, and what it throws is a
    [TypeError], a [SystemError] or what the timestamp function threw. *)
Lemma file_sink_Throw item log str w e w' :
  file_sink item log str w = (Throw e, w') →
  heap w' = heap w ∧ files w' = files w ∧ out w' = out w
  ∧ ∀ type, e ≠ EmitError type.
Proof.
  rewrite file_sink_run.
  pose proof (timestamp_prefix_frame (get (get log "file") "timestamp")
                (set_ticks (S (ticks w)) w)) as (Hh & Hf & Ho & _).
  destruct (get (get log "file") "dir") as [| | | |d| | |];
    try (by intros [= <- <-]).
  cbv zeta.
  destruct (timestamp_prefix _ _) as [[p|e'] w2] eqn:Hts.
  - destruct (write_fails w2 _); [|done]. by intros [= <- <-].
  - intros [= <- <-]. repeat split; try done.
    rewrite timestamp_prefix_run in Hts.
    destruct (truthy _); [|done].
    destruct (get (get log "file") "timestamp");
      try (by injection Hts as <- _).
    destruct (timestamp_fails _ _ _); [|done]. by injection Hts as <- _.
Qed.

Lemma file_sink_grows item log str :
  preserves files_grow (file_sink item log str).
Proof.
  intros w. destruct (file_sink item log str w) as [[[]|e] w'] eqn:Hrun.
  - apply file_sink_Ok in Hrun as (d & _ & Hf). simpl. intros path.
    rewrite Hf. unfold content.
    destruct (decide (path_resolve d (file_name item (clock (ticks w))) = path))
      as [<-|Hne].
    + rewrite lookup_insert_eq. split; [by eauto|]. simpl. by eexists.
    + rewrite lookup_insert_ne by done. split; [done|].
      exists "". by rewrite append_empty_r.
  - apply file_sink_Throw in Hrun as (_ & Hf & _). by apply same_files_grow.
Qed.

Lemma sinks_grow this item log str :
  preserves files_grow (sinks this item log str).
Proof.
  unfold sinks.
  apply (preserves_bind _); [|intros _; apply (preserves_bind _); [|intros _]].
  - destruct (truthy (get log "file")); [|apply (preserves_ret _)].
    apply file_sink_grows.
  - destruct (truthy (get log "memory")); [|apply (preserves_ret _)].
    apply memory_sink_preserves; [apply _ | |]; intros; by apply same_files_grow.
  - destruct (truthy (get log "emit")); [|apply (preserves_ret _)].
    apply emit_preserves; [apply _|]. intros; by apply same_files_grow.
Qed.

Lemma call_grows f args : preserves files_grow (call f args).
Proof.
  induction f as [name|this item log o IH]; simpl.
  - intros w. by apply same_files_grow.
  - apply (preserves_bind _); [done|]. intros _. apply sinks_grow.
Qed.

(** X10. Files are only ever appended to: through whatever the program does
    with the console and the class, a file that was there stays there and
    keeps what it held as the start of its text. *)
Theorem files_only_grow acts w path :
  (is_Some (files w !! path) → is_Some (files (run acts w) !! path))
  ∧ ∃ more, content (files (run acts w)) path = content (files w) path +:+ more.
Proof.
  assert (files_grow w (run acts w)) as Hg; [|apply Hg].
  revert w. induction acts as [|a acts IH]; intros w; [reflexivity|].
  etrans; [|apply IH]. destruct a as [name args|arg]; simpl.
  - unfold console_call, mbind, M_bind, gets, throw. cbn.
    destruct (console_get (console w) name) as [f|]; [|reflexivity].
    apply call_grows.
  - apply same_files_grow. by destruct (Logger_new_outside arg w) as (_ & -> & _).
Qed.

End Files.

(** ** The sinks one after the other *)

Section Order.
Context `{Host}.

Lemma file_part_Ok item log str w w1 :
  (if truthy (get log "file") then file_sink item log str else mret ()) w
  = (Ok (), w1) →
  heap w1 = heap w ∧ out w1 = out w ∧ console w1 = console w
  ∧ (truthy (get log "file") = true →
       ∃ d, get (get log "file") "dir" = VString d
            ∧ files w1
              = <[path_resolve d (file_name item (clock (ticks w)))
                  := content (files w)
                       (path_resolve d (file_name item (clock (ticks w))))
                     +:+ (stamp log (clock (S (ticks w))) +:+ str +:+ EOL)]>
                  (files w))
  ∧ (truthy (get log "file") = false → files w1 = files w).
Proof.
  destruct (truthy (get log "file")).
  - intros Hrun.
    pose proof (file_sink_preserves same_heap item log str
                  (λ _ _, eq_refl) (λ _ _, eq_refl) w) as Hh.
    pose proof (file_sink_preserves same_out item log str
                  (λ _ _, eq_refl) (λ _ _, eq_refl) w) as Ho.
    pose proof (file_sink_preserves same_console item log str
                  (λ _ _, eq_refl) (λ _ _, eq_refl) w) as Hc.
    rewrite Hrun in Hh, Ho, Hc. repeat split; try done.
    intros _. by apply file_sink_Ok.
  - intros [= <-]. repeat split; done.
Qed.

Lemma memory_part_Ok this item log str w1 w2 :
  (if truthy (get log "memory") then memory_sink this item log str
   else mret ()) w1 = (Ok (), w2) →
  files w2 = files w1 ∧ out w2 = out w1 ∧ console w2 = console w1
  ∧ (truthy (get log "memory") = true →
       ∃ l, history w1 this item = Some l
            ∧ history w2 this item
              = Some (retain (get (get log "memory") "history")
                        (l ++ [Entry (clock (ticks w1)) str])))
  ∧ (truthy (get log "memory") = false → heap w2 = heap w1).
Proof.
  destruct (truthy (get log "memory")).
  - rewrite memory_sink_eq.
    destruct (history w1 this item) as [l|] eqn:Hl; [|done].
    intros [= <-]. repeat split; try done.
    intros _. exists l. split; [done|].
    unfold history at 1. simpl. by eapply history_alter.
  - intros [= <-]. repeat split; done.
Qed.

Lemma memory_part_Throw this item log str w1 e w2 :
  (if truthy (get log "memory") then memory_sink this item log str
   else mret ()) w1 = (Throw e, w2) →
  ∀ type, e ≠ EmitError type.
Proof.
  destruct (truthy (get log "memory")); [|done].
  rewrite memory_sink_eq. destruct (history w1 this item); [done|].
  by intros [= <- _].
Qed.

Lemma emit_run this item str w :
  emit this item str w =
    (if emit_fails w this item str then Throw (EmitError item) else Ok (),
     set_out (out w ++ [Emit this item str]) w).
Proof.
  unfold emit, mbind, M_bind, gets, modify, throw, mret, M_ret. cbn.
  by destruct (emit_fails w this item str).
Qed.

(** The sinks that returned, one after the other. *)
Lemma sinks_Ok this item log str w w' :
  sinks this item log str w = (Ok (), w') →
  ∃ w1 w2,
    (if truthy (get log "file") then file_sink item log str else mret ()) w
    = (Ok (), w1)
    ∧ (if truthy (get log "memory") then memory_sink this item log str
       else mret ()) w1 = (Ok (), w2)
    ∧ w' = (if truthy (get log "emit")
            then set_out (out w2 ++ [Emit this item str]) w2 else w2).
Proof.
  unfold sinks.
  intros ([] & w1 & Hfile & ([] & w2 & Hmem & Hemit)%M_bind_Ok)%M_bind_Ok.
  exists w1, w2. split; [done|]. split; [done|].
  destruct (truthy (get log "emit")); [|by injection Hemit as <-].
  rewrite emit_run in Hemit. by injection Hemit as _ <-.
Qed.

(** The sinks that threw out of [emit]: the file and the memory sink had
    returned by then. *)
Lemma sinks_EmitError this item log str w type w' :
  sinks this item log str w = (Throw (EmitError type), w') →
  ∃ w1 w2,
    (if truthy (get log "file") then file_sink item log str else mret ()) w
    = (Ok (), w1)
    ∧ (if truthy (get log "memory") then memory_sink this item log str
       else mret ()) w1 = (Ok (), w2)
    ∧ type = item ∧ truthy (get log "emit") = true
    ∧ emit_fails w2 this item str = true
    ∧ w' = set_out (out w2 ++ [Emit this item str]) w2.
Proof.
  unfold sinks, mbind, M_bind.
  destruct ((if truthy (get log "file") then file_sink item log str
             else mret ()) w) as [[[]|e] w1] eqn:Hfile.
  2:{ intros [= -> <-]. destruct (truthy (get log "file")); [|done].
      apply file_sink_Throw in Hfile as (_ & _ & _ & Hne). by destruct (Hne type). }
  destruct ((if truthy (get log "memory") then memory_sink this item log str
             else mret ()) w1) as [[[]|e] w2] eqn:Hmem.
  2:{ intros [= -> <-]. by destruct (memory_part_Throw _ _ _ _ _ _ _ Hmem type). }
  intros Hemit. exists w1, w2. split; [done|]. split; [done|].
  destruct (truthy (get log "emit")); [|done].
  rewrite emit_run in Hemit.
  destruct (emit_fails w2 this item str); [|done].
  by injection Hemit as <- <-.
Qed.

(** X11. When a call of the wrapper throws out of [emit] (a listener threw,
    or an [error] event had no listener), everything else has been done with
    the message before: the line is in the file, the entry is in the array,
    the emission is the last thing in the trace. *)
Theorem listener_failure_comes_last this item log n0 args w type w' :
  call (Wrapper this item log (Native n0)) args w
  = (Throw (EmitError type), w') →
  type = item
  ∧ out w' = out w ++ [Output n0 args; Emit this item (render args)]
  ∧ (truthy (get log "memory") = true →
       ∃ l t, history w this item = Some l
              ∧ history w' this item
                = Some (retain (get (get log "memory") "history")
                          (l ++ [Entry t (render args)])))
  ∧ (truthy (get log "file") = true →
       ∃ d, get (get log "file") "dir" = VString d
            ∧ files w'
              = <[path_resolve d (file_name item (clock (ticks w)))
                  := content (files w)
                       (path_resolve d (file_name item (clock (ticks w))))
                     +:+ (stamp log (clock (S (ticks w)))
                          +:+ render args +:+ EOL)]> (files w)).
Proof.
  rewrite call_wrapper_eq. cbn [call modify].
  intros (w1 & w2 & Hfile & Hmem & -> & _ & _ & ->)%sinks_EmitError.
  apply file_part_Ok in Hfile as (Hh1 & Ho1 & _ & Hf1 & _).
  apply memory_part_Ok in Hmem as (Hf2 & Ho2 & _ & Hm2 & _).
  simpl in *. split; [done|]. split; [|split].
  - by rewrite Ho2, Ho1, <- app_assoc.
  - intros Hm. destruct (Hm2 Hm) as (l & Hl & Hl2).
    exists l, (clock (ticks w1)). split; [|done].
    unfold history in *. by rewrite <- Hh1.
  - intros Hf. destruct (Hf1 Hf) as (d & Hd & Hfiles).
    exists d. split; [done|]. by rewrite Hf2.
Qed.

Lemma file_sink_fails item log str w :
  (∀ d, get (get log "file") "dir" ≠ VString d)
  ∨ (∀ w path, write_fails w path = true) →
  ∃ e w', file_sink item log str w = (Throw e, w').
Proof.
  intros Hwhy. rewrite file_sink_run.
  destruct (get (get log "file") "dir") as [| | | |d| | |]; try by eauto.
  destruct Hwhy as [Hd|Hw]; [by destruct (Hd d)|]. cbv zeta.
  destruct (timestamp_prefix _ _) as [[p|e] w2]; [|by eauto].
  rewrite Hw. eauto.
Qed.

(** X12. When the file sink cannot write (its [dir] is no string, which
    line 44 lets through, or the file system refuses), every call of the
    wrapper throws after the original has run: nothing is stored in the
    array, nothing is emitted, no file changes. *)
Theorem file_failure_loses_the_message this item log n0 args w :
  truthy (get log "file") = true →
  (∀ d, get (get log "file") "dir" ≠ VString d)
  ∨ (∀ w path, write_fails w path = true) →
  ∃ e w',
    call (Wrapper this item log (Native n0)) args w = (Throw e, w')
    ∧ heap w' = heap w ∧ files w' = files w
    ∧ out w' = out w ++ [Output n0 args].
Proof.
  intros Hfile Hwhy.
  destruct (file_sink_fails item log (render args)
              (set_out (out w ++ [Output n0 args]) w) Hwhy) as (e & w' & Hrun).
  exists e, w'. rewrite call_wrapper_eq. cbn [call modify].
  unfold sinks, mbind, M_bind. rewrite Hfile, Hrun.
  by apply file_sink_Throw in Hrun as (Hh & Hf & Ho & _).
Qed.

(** One call that returns: what it leaves in the files and in the trace. *)
Lemma console_call_Ok name this log n0 args w w' :
  console_get (console w) name
  = Some (FunObj (Wrapper this name log (Native n0)) true) →
  console_call name args w = (Ok (), w') →
  console w' = console w
  ∧ out w' = out w ++ call_events this name n0 log args
  ∧ (truthy (get log "file") = false → files w' = files w)
  ∧ (truthy (get log "file") = true →
       ∃ d, get (get log "file") "dir" = VString d
            ∧ files w'
              = <[path_resolve d (file_name name (clock (ticks w)))
                  := content (files w)
                       (path_resolve d (file_name name (clock (ticks w))))
                     +:+ (stamp log (clock (S (ticks w)))
                          +:+ render args +:+ EOL)]> (files w)).
Proof.
  intros Hf Hcall.
  apply (console_call_wrapper _ _ _ _ _ _ _ _ Hf) in Hcall.
  apply sinks_Ok in Hcall as (w1 & w2 & Hfile & Hmem & ->).
  apply file_part_Ok in Hfile as (_ & Ho1 & Hc1 & Hf1 & Hf1').
  apply memory_part_Ok in Hmem as (Hf2 & Ho2 & Hc2 & _).
  simpl in *. unfold call_events.
  split; [|split; [|split]].
  - destruct (truthy (get log "emit")); simpl; congruence.
  - destruct (truthy (get log "emit")); simpl; rewrite Ho2, Ho1;
      by rewrite <- ?app_assoc.
  - intros Hoff. destruct (truthy (get log "emit")); simpl;
      rewrite Hf2; by apply Hf1'.
  - intros Hon. destruct (Hf1 Hon) as (d & Hd & Hfiles). exists d.
    split; [done|]. destruct (truthy (get log "emit")); simpl; congruence.
Qed.

Lemma file_sink_ticks item log str w w' :
  file_sink item log str w = (Ok (), w') →
  ticks w'
  = (ticks w + 1
     + if truthy (get (get log "file") "timestamp") then 1 else 0)%nat.
Proof.
  rewrite file_sink_run. intros Hrun.
  destruct (get (get log "file") "dir") as [| | | |d| | |]; try done.
  cbv zeta in Hrun.
  pose proof (timestamp_prefix_ticks (get (get log "file") "timestamp")
                (set_ticks (S (ticks w)) w)) as Ht.
  destruct (timestamp_prefix _ _) as [[p|e] w2]; [|done].
  destruct (write_fails w2 _); [done|].
  injection Hrun as <-. simpl in *.
  destruct (truthy (get (get log "file") "timestamp")); lia.
Qed.

(** A call that returns has made the dates of its sinks. *)
Lemma console_call_ticks name this log n0 args w w' :
  console_get (console w) name
  = Some (FunObj (Wrapper this name log (Native n0)) true) →
  console_call name args w = (Ok (), w') →
  ticks w' = (ticks w + call_dates log)%nat.
Proof.
  intros Hf Hcall.
  apply (console_call_wrapper _ _ _ _ _ _ _ _ Hf) in Hcall.
  apply sinks_Ok in Hcall as (w1 & w2 & Hfile & Hmem & ->).
  assert (ticks w1
          = (ticks w + if truthy (get log "file")
                       then 1 + (if truthy (get (get log "file") "timestamp")
                                 then 1 else 0)
                       else 0)%nat) as H1.
  { destruct (truthy (get log "file")).
    - apply file_sink_ticks in Hfile. simpl in Hfile.
      destruct (truthy (get (get log "file") "timestamp")); lia.
    - injection Hfile as <-. simpl. lia. }
  assert (ticks w2
          = (ticks w1 + if truthy (get log "memory") then 1 else 0)%nat) as H2.
  { destruct (truthy (get log "memory")).
    - rewrite memory_sink_eq in Hmem.
      destruct (history w1 this name); [|done].
      injection Hmem as <-. simpl. lia.
    - injection Hmem as <-. lia. }
  unfold call_dates.
  destruct (truthy (get log "emit")), (truthy (get log "file")),
    (truthy (get (get log "file") "timestamp")), (truthy (get log "memory"));
    simpl in *; lia.
Qed.

Lemma console_calls_lines name this log n0 d fname :
  truthy (get log "file") = true →
  get (get log "file") "dir" = VString d →
  (∀ k, file_name name (clock k) = fname) →
  ∀ argss w w2,
    console_get (console w) name
    = Some (FunObj (Wrapper this name log (Native n0)) true) →
    console_calls name argss w = (Ok (), w2) →
    content (files w2) (path_resolve d fname)
    = content (files w) (path_resolve d fname) +:+ lines log (ticks w) argss
    ∧ ∀ path, path ≠ path_resolve d fname → files w2 !! path = files w !! path.
Proof.
  intros Hfile Hdir Hday.
  induction argss as [|args rest IH]; intros w w2 Hf Hrun.
  { injection Hrun as <-. split; [|done]. simpl. by rewrite append_empty_r. }
  cbn [console_calls] in Hrun.
  apply M_bind_Ok in Hrun as ([] & w1 & Hcall & Hrest).
  destruct (console_call_Ok _ _ _ _ _ _ _ Hf Hcall) as (Hc & _ & _ & Hfiles).
  pose proof (console_call_ticks _ _ _ _ _ _ _ Hf Hcall) as Hticks.
  destruct (Hfiles Hfile) as (d' & Hd' & Hw1).
  assert (d' = d) as -> by congruence.
  rewrite Hday in Hw1.
  destruct (IH w1 w2 ltac:(by rewrite Hc) Hrest) as [Hcontent Hother].
  split.
  - rewrite Hcontent, Hticks.
    assert (content (files w1) (path_resolve d fname)
            = content (files w) (path_resolve d fname)
              +:+ (stamp log (clock (S (ticks w))) +:+ render args +:+ EOL))
      as ->.
    { unfold content at 1. by rewrite Hw1, lookup_insert_eq. }
    cbn [lines]. by rewrite !append_assoc.
  - intros path Hne. rewrite (Hother path Hne), Hw1.
    by rewrite lookup_insert_ne.
Qed.

Lemma console_calls_events name this log n0 :
  ∀ argss w w2,
    console_get (console w) name
    = Some (FunObj (Wrapper this name log (Native n0)) true) →
    console_calls name argss w = (Ok (), w2) →
    out w2 = out w ++ concat (call_events this name n0 log <$> argss).
Proof.
  induction argss as [|args rest IH]; intros w w2 Hf Hrun.
  { injection Hrun as <-. simpl. by rewrite app_nil_r. }
  cbn [console_calls] in Hrun.
  apply M_bind_Ok in Hrun as ([] & w1 & Hcall & Hrest).
  destruct (console_call_Ok _ _ _ _ _ _ _ Hf Hcall) as (Hc & Ho & _).
  rewrite (IH w1 w2 ltac:(by rewrite Hc) Hrest), Ho.
  by rewrite fmap_cons, concat_cons, !app_assoc.
Qed.

(** X13. On a Logger with the file sink, calls of [console[name]] that all
    return, on one UTC day, leave the file of that day with one line per call
    added at its end, in call order: each line is the prefix that the
    timestamp function gives for the date of its call (nothing without such
    a function), the rendered message and the line terminator; no other file
    changes. *)
Theorem file_lines_in_call_order arg types log w this w1 name d fname :
  intercepted_once w →
  destructure arg = Ok (types, log) →
  Logger_new arg w = (Ok this, w1) →
  VString name ∈ elements types →
  truthy (get log "file") = true →
  get (get log "file") "dir" = VString d →
  (∀ k, file_name name (clock k) = fname) →
  ∀ argss w2,
    console_calls name argss w1 = (Ok (), w2) →
    content (files w2) (path_resolve d fname)
    = content (files w) (path_resolve d fname) +:+ lines log (ticks w) argss
    ∧ ∀ path, path ≠ path_resolve d fname → files w2 !! path = files w !! path.
Proof.
  intros Hw Hd Hnew Hin Hfile Hdir Hday argss w2 Hrun.
  destruct (Logger_new_wrapper _ _ _ _ _ _ _ Hw Hd Hnew Hin) as (_ & n0 & Hf).
  pose proof (Logger_new_outside arg w) as (_ & Hfiles & Hticks).
  rewrite Hnew in Hfiles, Hticks. simpl in Hfiles, Hticks.
  rewrite <- Hfiles, <- Hticks.
  by eapply console_calls_lines.
Qed.

(** X14. Calls of [console[name]] on a Logger that all return leave in the
    trace, per call and in call order, the output of the runtime's function
    on the arguments and, with the emit sink, exactly one emission of the
    rendered message under the name; without the emit sink, no emission. *)
Theorem calls_emit_once_each arg types log w this w1 name :
  intercepted_once w →
  destructure arg = Ok (types, log) →
  Logger_new arg w = (Ok this, w1) →
  VString name ∈ elements types →
  ∃ f n0,
    console_get (console w) name = Some f ∧ code f = Native n0
    ∧ ∀ argss w2,
        console_calls name argss w1 = (Ok (), w2) →
        out w2 = out w ++ concat (call_events this name n0 log <$> argss).
Proof.
  intros Hw Hd Hnew Hin.
  destruct (Logger_new_wrapper _ _ _ _ _ _ _ Hw Hd Hnew Hin) as (_ & n0 & Hf).
  destruct (Logger_new_Ok _ _ _ _ _ _ Hd Hnew) as (-> & _ & Hrun).
  apply install_Ok in Hrun as [H1 _]; [|simpl; rewrite length_app; simpl; lia].
  destruct (H1 name Hin) as (f & Hfw & _ & Hc & _).
  simpl in Hfw. rewrite Hc in Hf. injection Hf as Hcode.
  exists f, n0. split; [done|]. split; [done|].
  intros argss w2 Hcalls.
  pose proof (Logger_new_outside arg w) as (Hout & _).
  rewrite Hnew in Hout. simpl in Hout. rewrite <- Hout.
  eapply console_calls_events; [|done]. by rewrite Hc, Hcode.
Qed.

End Order.

(** ** The memory sink for every bound *)

#[local] Instance same_history_at_po this item :
  PreOrder (same_history_at this item).
Proof. split; unfold same_history_at; [done | intros ???; congruence]. Qed.

Section Bounds.
Context `{Host}.

(** Lines 89-91 only ever take entries from the front. *)
Lemma retain_drop bound (l : list entry) : ∃ k, retain bound l = drop k l.
Proof.
  unfold retain. destruct (ge _ _); [|by exists 0%nat].
  destruct (sub _ _) as [| | |z]; simpl; eauto.
  - by exists 0%nat.
  - exists (length l). by rewrite drop_all.
  - by exists 0%nat.
Qed.

Lemma retain_nonpositive bound (l : list entry) :
  ToNumber bound = NegInf ∨ (∃ n, ToNumber bound = Int n ∧ n ≤ 0) →
  retain bound l = [].
Proof.
  unfold retain. intros [->|(n & -> & Hn)]; simpl; [done|].
  destruct (Z.leb_spec n (Z.of_nat (length l))) as [_|Hgt]; [|lia].
  simpl. apply drop_ge. lia.
Qed.

Lemma retain_unbounded bound (l : list entry) :
  ToNumber bound = PosInf → retain bound l = l.
Proof. unfold retain. by intros ->. Qed.

(** What a relation between the messages rendered so far and the messages
    in the array needs, to hold after calls that return. *)
Lemma console_calls_memory name this log n0
    (P : list string → list string → Prop) :
  truthy (get log "memory") = true →
  (∀ pre l t str,
     P pre (message <$> l) →
     P (pre ++ [str])
       (message <$> retain (get (get log "memory") "history")
                      (l ++ [Entry t str]))) →
  ∀ argss w w' pre l0,
    console_get (console w) name
    = Some (FunObj (Wrapper this name log (Native n0)) true) →
    history w this name = Some l0 →
    P pre (message <$> l0) →
    console_calls name argss w = (Ok (), w') →
    ∃ l, history w' this name = Some l
         ∧ P (pre ++ (render <$> argss)) (message <$> l).
Proof.
  intros Hm Hstep. induction argss as [|args rest IH];
    intros w w' pre l0 Hf Hl Hpre Hrun.
  { injection Hrun as <-. exists l0. by rewrite app_nil_r. }
  cbn [console_calls] in Hrun.
  apply M_bind_Ok in Hrun as ([] & w1 & Hcall & Hrest).
  pose proof (console_call_console name args w) as Hc.
  rewrite Hcall in Hc. simpl in Hc.
  apply (console_call_wrapper _ _ _ _ _ _ _ _ Hf) in Hcall.
  destruct (sinks_memory _ _ _ _ _ _ Hm Hcall) as (l & t & Hl' & Hl1).
  assert (l = l0) as -> by (unfold history in *; simpl in Hl'; congruence).
  destruct (IH w1 w' (pre ++ [render args]) _ ltac:(by rewrite Hc) Hl1)
    as (l & Hlw' & Hmsgs); [by apply Hstep|done|].
  exists l. split; [done|]. by rewrite fmap_cons, cons_middle, app_assoc.
Qed.

(** X15. A bound that is zero, negative or -Infinity (all of which line 45
    accepts, as it accepts [null], which counts as zero) makes the memory
    sink keep nothing: after every call of the wrapper that returns, the
    array is empty, whatever it held before. *)
Theorem nonpositive_bound_keeps_nothing this item log n0 args w w' :
  truthy (get log "memory") = true →
  ToNumber (get (get log "memory") "history") = NegInf
  ∨ (∃ n, ToNumber (get (get log "memory") "history") = Int n ∧ n ≤ 0) →
  call (Wrapper this item log (Native n0)) args w = (Ok (), w') →
  history w' this item = Some [].
Proof.
  intros Hm Hbound. rewrite call_wrapper_eq. cbn [call modify]. intros Hrun.
  destruct (sinks_memory _ _ _ _ _ _ Hm Hrun) as (l & t & _ & ->).
  by rewrite retain_nonpositive.
Qed.

(** X16. With the bound +Infinity nothing is ever removed: after calls of
    [console[name]] on a new Logger that all return, the array holds the
    rendered message of every call, in call order. *)
Theorem infinite_bound_keeps_everything arg types log w this w1 name :
  intercepted_once w →
  destructure arg = Ok (types, log) →
  Logger_new arg w = (Ok this, w1) →
  VString name ∈ elements types →
  truthy (get log "memory") = true →
  ToNumber (get (get log "memory") "history") = PosInf →
  ∀ argss w2,
    console_calls name argss w1 = (Ok (), w2) →
    ∃ l, history w2 this name = Some l ∧ message <$> l = render <$> argss.
Proof.
  intros Hw Hd Hnew Hin Hm Hbound argss w2 Hrun.
  destruct (Logger_new_wrapper _ _ _ _ _ _ _ Hw Hd Hnew Hin) as (Hl & n0 & Hf).
  apply (console_calls_memory name this log n0 (λ pre msgs, msgs = pre) Hm)
    with (argss := argss) (w := w1) (w' := w2) (pre := []) (l0 := []);
    try done.
  intros pre l t str Hpre.
  by rewrite (retain_unbounded _ _ Hbound), fmap_app, Hpre.
Qed.

(** X17. Whatever the bound is: after calls of [console[name]] on a new
    Logger that all return, the messages in the array are a final segment of
    the rendered messages of the calls, in call order. Entries leave the
    array at its front only; none is altered, reordered or put back. *)
Theorem memory_holds_a_final_segment arg types log w this w1 name :
  intercepted_once w →
  destructure arg = Ok (types, log) →
  Logger_new arg w = (Ok this, w1) →
  VString name ∈ elements types →
  truthy (get log "memory") = true →
  ∀ argss w2,
    console_calls name argss w1 = (Ok (), w2) →
    ∃ l, history w2 this name = Some l
         ∧ (message <$> l) `suffix_of` (render <$> argss).
Proof.
  intros Hw Hd Hnew Hin Hm argss w2 Hrun.
  destruct (Logger_new_wrapper _ _ _ _ _ _ _ Hw Hd Hnew Hin) as (Hl & n0 & Hf).
  apply (console_calls_memory name this log n0
           (λ pre msgs, msgs `suffix_of` pre) Hm)
    with (argss := argss) (w := w1) (w' := w2) (pre := []) (l0 := []);
    try done.
  intros pre l t str Hpre.
  destruct (retain_drop (get (get log "memory") "history")
              (l ++ [Entry t str])) as [k ->].
  rewrite fmap_drop, fmap_app. etrans; [apply suffix_drop|].
  by apply suffix_app.
Qed.

Lemma sinks_history_at this item log str this' item' :
  (this', item') ≠ (this, item) →
  preserves (same_history_at this' item') (sinks this item log str).
Proof.
  intros Hne. apply (sinks_preserves (same_history_at this' item')); try done.
  intros _ w l. unfold same_history_at, history. simpl.
  destruct (decide (this' = this)) as [->|Hthis].
  - rewrite list_lookup_alter_eq. destruct (heap w !! this); [|done]. simpl.
    apply lookup_insert_ne. congruence.
  - by rewrite list_lookup_alter_ne.
Qed.

Lemma console_calls_history_at name this log n0 this' item' :
  (this', item') ≠ (this, name) →
  ∀ argss w,
    console_get (console w) name
    = Some (FunObj (Wrapper this name log (Native n0)) true) →
    history (console_calls name argss w).2 this' item' = history w this' item'.
Proof.
  intros Hne. induction argss as [|args rest IH]; intros w Hf; [done|].
  cbn [console_calls]. unfold mbind, M_bind.
  pose proof (console_call_console name args w) as Hc.
  destruct (console_call name args w) as [r w1] eqn:Hcall. simpl in Hc.
  apply (console_call_wrapper _ _ _ _ _ _ _ _ Hf) in Hcall.
  pose proof (sinks_history_at this name log (render args) this' item' Hne
                (set_out (out w ++ [Output n0 args]) w)) as Hs.
  rewrite Hcall in Hs. unfold same_history_at in Hs. simpl in Hs.
  destruct r as [[]|e]; [|done].
  rewrite IH; [done | by rewrite Hc].
Qed.

(** X18. Calls of [console[name]] on a Logger, whether they return or
    throw, touch the array of that name of that Logger only: its arrays of
    the other names, and the arrays of every other instance, stay as they
    are. *)
Theorem calls_touch_one_array arg types log w this w1 name :
  intercepted_once w →
  destructure arg = Ok (types, log) →
  Logger_new arg w = (Ok this, w1) →
  VString name ∈ elements types →
  ∀ argss this' item',
    (this', item') ≠ (this, name) →
    history (console_calls name argss w1).2 this' item'
    = history w1 this' item'.
Proof.
  intros Hw Hd Hnew Hin argss this' item' Hne.
  destruct (Logger_new_wrapper _ _ _ _ _ _ _ Hw Hd Hnew Hin) as (_ & n0 & Hf).
  by eapply console_calls_history_at.
Qed.

End Bounds.

(** ** The memory sink under a positive bound *)

Section Memory_bound.
Context `{Host}.





End Memory_bound.

(** * The further properties at work in a fresh process *)




Lemma fresh_unmarked name f :
  console_get (console fresh) name = Some f → modified f = false.
Proof. intros Hf. by destruct (proj2 fresh_pristine _ _ Hf). Qed.

Lemma kind_value_log : kind_value (VString "log").
Proof. exists "log". split; [done | set_solver]. Qed.

(** [new Logger({types: ["log", "warn"], log: {emit: true}})] in a fresh
    process succeeds. *)
Lemma construction_succeeds_iff_witness :
  ∃ this w',
    Logger_new (H:=small_host) (config ["log"; "warn"] emit_sink) fresh
    = (Ok this, w').
Proof.
  apply (proj2 (construction_succeeds_iff (H:=small_host)
    (config ["log"; "warn"] emit_sink)
    (VArray [VString "log"; VString "warn"]) (VObject emit_sink) fresh eq_refl)).
  split; [by apply validate_Ok|]. split.
  - apply NoDup_cons. split; [|apply NoDup_singleton].
    by intros [=]%list_elem_of_singleton.
  - intros name f _. apply fresh_unmarked.
Defined.

(** After it, [console.log] is the wrapper of instance 0 around the
    runtime's function. *)
Lemma construction_installs_wrappers_witness :
  ∃ f, console_get (console fresh) "log" = Some f ∧ modified f = false
       ∧ console_get
           (console (Logger_new (H:=small_host)
                       (config ["log"; "warn"] emit_sink) fresh).2) "log"
         = Some (FunObj (Wrapper 0 "log" (VObject emit_sink) (code f)) true).
Proof.
  apply (proj1 (construction_installs_wrappers (H:=small_host)
    (config ["log"; "warn"] emit_sink)
    (VArray [VString "log"; VString "warn"]) (VObject emit_sink) fresh 0
    (Logger_new (H:=small_host) (config ["log"; "warn"] emit_sink) fresh).2
    eq_refl eq_refl "log")).
  apply list_elem_of_here.
Defined.

(** With [console.log] taken by a first Logger, a second one for
    [["warn", "log"]] throws for [log], leaves its wrapper on [console.warn],
    and so cannot be constructed again either. *)
Lemma failed_construction_keeps_earlier_wrappers_witness :
  ∃ w',
    Logger_new (H:=small_host) (config ["warn"; "log"] emit_sink)
      (Logger_new (H:=small_host) (config ["log"] emit_sink) fresh).2
    = (Throw (attach_error "log"), w')
    ∧ console_get (console w') "warn"
      = Some (FunObj (Wrapper 1 "warn" (VObject emit_sink) (Native "warn")) true)
    ∧ ∃ w'',
        Logger_new (H:=small_host) (config ["warn"; "log"] emit_sink) w'
        = (Throw (attach_error "warn"), w'').
Proof.
  destruct (failed_construction_keeps_earlier_wrappers (H:=small_host)
    (config ["warn"; "log"] emit_sink)
    (VArray [VString "warn"; VString "log"]) (VObject emit_sink)
    (Logger_new (H:=small_host) (config ["log"] emit_sink) fresh).2
    [VString "warn"] "log" []
    (FunObj (Wrapper 0 "log" (VObject emit_sink) (Native "log")) true))
    as (w' & Hnew & Hpre & Hretry); try reflexivity.
  - by apply validate_Ok.
  - apply NoDup_singleton.
  - intros n g [= ->]%list_elem_of_singleton [= <-]. reflexivity.
  - exists w'. split; [exact Hnew|]. split.
    + destruct (Hpre "warn" (list_elem_of_here _ _)) as (g & [= <-] & Hg).
      exact Hg.
    + exact (Hretry "warn" [] eq_refl).
Defined.

(** The wrapper of a first Logger is still [console.log] after a call and a
    further construction. *)
Lemma interception_is_permanent_witness :
  console_get
    (console
       (run (H:=small_host)
          [Call "log" [VString "a"]; New (config ["warn"] emit_sink)]
          (Logger_new (H:=small_host) (config ["log"] emit_sink) fresh).2))
    "log"
  = Some (FunObj (Wrapper 0 "log" (VObject emit_sink) (Native "log")) true).
Proof.
  apply (interception_is_permanent (H:=small_host)); reflexivity.
Defined.


(** [log: {emit: true, verbose: true}] is refused for [verbose]. *)
Lemma first_invalid_sink_is_reported_witness :
  validate (H:=small_host) (VArray [VString "log"])
    (VObject [("emit", VBool true); ("verbose", VBool true)])
  = Throw (Error "Invalid log verbose, must be one of file, memory, emit").
Proof.
  apply (first_invalid_sink_is_reported (H:=small_host)
    [VString "log"] (VObject [("emit", VBool true); ("verbose", VBool true)])
    ["emit"] "verbose" []).
  - repeat split; done.
  - done.
  - apply Forall_singleton, kind_value_log.
  - reflexivity.
  - apply Forall_singleton. set_solver.
  - set_solver.
Defined.


(** With a listener that throws, [console.log("a")] throws after the entry
    is in the array. *)
Lemma listener_failure_comes_last_witness :
  ∃ l t,
    history
      (Logger_new (H:=throwing_host)
         (config ["log"] (memory_sink_of (VNumber (Int 2)) ++ emit_sink))
         fresh).2 0 "log" = Some l
    ∧ history
        (call (H:=throwing_host)
           (Wrapper 0 "log"
              (VObject (memory_sink_of (VNumber (Int 2)) ++ emit_sink))
              (Native "log"))
           [VString "a"]
           (Logger_new (H:=throwing_host)
              (config ["log"] (memory_sink_of (VNumber (Int 2)) ++ emit_sink))
              fresh).2).2 0 "log"
      = Some (retain (H:=throwing_host) (VNumber (Int 2)) (l ++ [Entry t "a"])).
Proof.
  destruct (listener_failure_comes_last (H:=throwing_host) 0 "log"
    (VObject (memory_sink_of (VNumber (Int 2)) ++ emit_sink)) "log"
    [VString "a"]
    (Logger_new (H:=throwing_host)
       (config ["log"] (memory_sink_of (VNumber (Int 2)) ++ emit_sink)) fresh).2
    "log"
    (call (H:=throwing_host)
       (Wrapper 0 "log"
          (VObject (memory_sink_of (VNumber (Int 2)) ++ emit_sink))
          (Native "log"))
       [VString "a"]
       (Logger_new (H:=throwing_host)
          (config ["log"] (memory_sink_of (VNumber (Int 2)) ++ emit_sink))
          fresh).2).2)
    as (_ & _ & Hm & _).
  - vm_compute. reflexivity.
  - exact (Hm eq_refl).
Defined.

(** [dir: 5] passes line 44, and then [console.log("a")] prints and throws
    without a trace in the files or the arrays. *)
Lemma file_failure_loses_the_message_witness :
  ∃ e w',
    call (H:=small_host)
      (Wrapper 0 "log" (VObject (file_sink_of (VNumber (Int 5)))) (Native "log"))
      [VString "a"] fresh = (Throw e, w')
    ∧ heap w' = heap fresh ∧ files w' = files fresh
    ∧ out w' = [Output "log" [VString "a"]].
Proof.
  apply (file_failure_loses_the_message (H:=small_host) 0 "log"
    (VObject (file_sink_of (VNumber (Int 5)))) "log" [VString "a"] fresh).
  - reflexivity.
  - left. intros d. discriminate.
Defined.

(** [console.log("a")] and [console.log("b")] with a file sink for the
    directory [logs] and a timestamp function that prints the time value of
    its date: the file of the day holds the two lines, each with the time of
    the second date of its call. *)
Lemma file_lines_in_call_order_witness :
  content
    (files
       (console_calls (H:=stamping_host) "log" [[VString "a"]; [VString "b"]]
          (Logger_new (H:=stamping_host)
             (config ["log"]
                [("file", VObject [("dir", VString "logs");
                                   ("timestamp", VFunction "iso")])])
             fresh).2).2)
    "logs/log_1970_1_1.log"
  = "[1] a" +:+ EOL (Host:=stamping_host)
    +:+ "[3] b" +:+ EOL (Host:=stamping_host).
Proof.
  pose proof (proj1 (file_lines_in_call_order (H:=stamping_host)
    (config ["log"]
       [("file", VObject [("dir", VString "logs");
                          ("timestamp", VFunction "iso")])])
    (VArray [VString "log"])
    (VObject [("file", VObject [("dir", VString "logs");
                                ("timestamp", VFunction "iso")])])
    fresh 0
    (Logger_new (H:=stamping_host)
       (config ["log"]
          [("file", VObject [("dir", VString "logs");
                             ("timestamp", VFunction "iso")])]) fresh).2
    "log" "logs" "log_1970_1_1.log"
    (pristine_intercepted_once fresh fresh_pristine)
    eq_refl ltac:(vm_compute; reflexivity) (list_elem_of_here _ _)
    eq_refl eq_refl ltac:(intros k; vm_compute; reflexivity)
    [[VString "a"]; [VString "b"]]
    (console_calls (H:=stamping_host) "log" [[VString "a"]; [VString "b"]]
       (Logger_new (H:=stamping_host)
          (config ["log"]
             [("file", VObject [("dir", VString "logs");
                                ("timestamp", VFunction "iso")])]) fresh).2).2
    ltac:(vm_compute; reflexivity))) as Hlines.
  etrans; [exact Hlines|]. vm_compute. reflexivity.
Defined.

(** [console.log("a")] and [console.log("b")] with the emit sink: each is
    printed, then emitted. *)
Lemma calls_emit_once_each_witness :
  out
    (console_calls (H:=small_host) "log" [[VString "a"]; [VString "b"]]
       (Logger_new (H:=small_host) (config ["log"] emit_sink) fresh).2).2
  = [Output "log" [VString "a"]; Emit 0 "log" "a";
     Output "log" [VString "b"]; Emit 0 "log" "b"].
Proof.
  destruct (calls_emit_once_each (H:=small_host)
    (config ["log"] emit_sink) (VArray [VString "log"]) (VObject emit_sink)
    fresh 0 (Logger_new (H:=small_host) (config ["log"] emit_sink) fresh).2
    "log" (pristine_intercepted_once fresh fresh_pristine)
    eq_refl eq_refl (list_elem_of_here _ _))
    as (f & n0 & [= <-] & [= <-] & Hout).
  exact (Hout [[VString "a"]; [VString "b"]] _ eq_refl).
Defined.

(** With [history: 0] the array is empty after [console.log("a")]. *)
Lemma nonpositive_bound_keeps_nothing_witness :
  history
    (call (H:=small_host)
       (Wrapper 0 "log" (VObject (memory_sink_of (VNumber (Int 0))))
          (Native "log"))
       [VString "a"]
       (Logger_new (H:=small_host)
          (config ["log"] (memory_sink_of (VNumber (Int 0)))) fresh).2).2
    0 "log"
  = Some [].
Proof.
  apply (nonpositive_bound_keeps_nothing (H:=small_host) 0 "log"
    (VObject (memory_sink_of (VNumber (Int 0)))) "log" [VString "a"]
    (Logger_new (H:=small_host)
       (config ["log"] (memory_sink_of (VNumber (Int 0)))) fresh).2).
  - reflexivity.
  - right. exists 0. split; [reflexivity | lia].
  - reflexivity.
Defined.

(** With [history: Infinity] the array holds [a], [b] and [c] after the
    three calls. *)
Lemma infinite_bound_keeps_everything_witness :
  ∃ l,
    history
      (console_calls (H:=small_host) "log"
         [[VString "a"]; [VString "b"]; [VString "c"]]
         (Logger_new (H:=small_host)
            (config ["log"] (memory_sink_of (VNumber PosInf))) fresh).2).2
      0 "log" = Some l
    ∧ message <$> l = ["a"; "b"; "c"].
Proof.
  apply (infinite_bound_keeps_everything (H:=small_host)
    (config ["log"] (memory_sink_of (VNumber PosInf)))
    (VArray [VString "log"]) (VObject (memory_sink_of (VNumber PosInf)))
    fresh 0
    (Logger_new (H:=small_host)
       (config ["log"] (memory_sink_of (VNumber PosInf))) fresh).2
    "log" (pristine_intercepted_once fresh fresh_pristine)
    eq_refl eq_refl (list_elem_of_here _ _) eq_refl eq_refl
    [[VString "a"]; [VString "b"]; [VString "c"]]).
  vm_compute. reflexivity.
Defined.

(** With [history: 1] the array holds a final segment of [a], [b], [c]
    after the three calls. *)
Lemma memory_holds_a_final_segment_witness :
  ∃ l,
    history
      (console_calls (H:=small_host) "log"
         [[VString "a"]; [VString "b"]; [VString "c"]]
         (Logger_new (H:=small_host)
            (config ["log"] (memory_sink_of (VNumber (Int 1)))) fresh).2).2
      0 "log" = Some l
    ∧ (message <$> l) `suffix_of` ["a"; "b"; "c"].
Proof.
  apply (memory_holds_a_final_segment (H:=small_host)
    (config ["log"] (memory_sink_of (VNumber (Int 1))))
    (VArray [VString "log"]) (VObject (memory_sink_of (VNumber (Int 1))))
    fresh 0
    (Logger_new (H:=small_host)
       (config ["log"] (memory_sink_of (VNumber (Int 1)))) fresh).2
    "log" (pristine_intercepted_once fresh fresh_pristine)
    eq_refl eq_refl (list_elem_of_here _ _) eq_refl
    [[VString "a"]; [VString "b"]; [VString "c"]]).
  vm_compute. reflexivity.
Defined.

(** A Logger for [log] and [warn]: [console.log("a")] leaves the array of
    [warn] empty. *)
Lemma calls_touch_one_array_witness :
  history
    (console_calls (H:=small_host) "log" [[VString "a"]]
       (Logger_new (H:=small_host)
          (config ["log"; "warn"] (memory_sink_of (VNumber (Int 2)))) fresh).2).2
    0 "warn"
  = Some [].
Proof.
  rewrite (calls_touch_one_array (H:=small_host)
    (config ["log"; "warn"] (memory_sink_of (VNumber (Int 2))))
    (VArray [VString "log"; VString "warn"])
    (VObject (memory_sink_of (VNumber (Int 2))))
    fresh 0
    (Logger_new (H:=small_host)
       (config ["log"; "warn"] (memory_sink_of (VNumber (Int 2)))) fresh).2
    "log" (pristine_intercepted_once fresh fresh_pristine)
    eq_refl eq_refl (list_elem_of_here _ _) [[VString "a"]] 0 "warn").
  - vm_compute. reflexivity.
  - intros [=].
Defined.
